(** * imageReader: parameter extraction from recognised text, and the batch driver

    A shallow embedding of [index.py]: the text primitives of the Python
    runtime the program calls ([str.lower], [str.strip], [str.split],
    [re.search]), the pattern table and the extractor of
    [OCRParameterModel], the per-row pipeline and the chunk orchestrator.

    A Python [str] is modelled as a list of characters whose code points
    lie in 0..255; the character classes below are the ones Python uses on
    that range. *)

From Stdlib Require Import List Ascii String NArith Arith Bool Lia Permutation.
Import ListNotations.

Set Implicit Arguments.

(** ** Python strings *)

Module PyStr.

Definition str := list ascii.

(** [L "abc"] is the Python literal ['abc']. *)
Definition L (s : string) : str := list_ascii_of_string s.

Definition code (a : ascii) : N := N_of_ascii a.

Definition in_range (lo hi : N) (a : ascii) : bool :=
  ((lo <=? code a) && (code a <=? hi))%N.

(** [str.isspace] on one character: TAB..CR, FS..US, SPACE, NEL, NBSP. *)
Definition isspace (a : ascii) : bool :=
  in_range 9 13 a || in_range 28 32 a
  || (code a =? 133)%N || (code a =? 160)%N.

(** Decimal digits, the class [\d]. *)
Definition isdigit (a : ascii) : bool := in_range 48 57 a.

(** Characters that [str.lower] changes: A..Z and the accented capitals
    0xC0..0xDE apart from the multiplication sign 0xD7. *)
Definition isupper (a : ascii) : bool :=
  in_range 65 90 a
  || (in_range 192 222 a && negb (code a =? 215)%N).

(** Word characters, the class [\w]: alphanumerics and the underscore. *)
Definition isword (a : ascii) : bool :=
  isdigit a || in_range 65 90 a || in_range 97 122 a
  || (code a =? 95)%N
  || (code a =? 170)%N || (code a =? 178)%N || (code a =? 179)%N
  || (code a =? 181)%N || (code a =? 185)%N || (code a =? 186)%N
  || in_range 188 190 a
  || (in_range 192 255 a
      && negb (code a =? 215)%N && negb (code a =? 247)%N).

Definition lower_char (a : ascii) : ascii :=
  if isupper a then ascii_of_N (code a + 32) else a.

(** [s.lower()] *)
Definition lower (s : str) : str := map lower_char s.

Fixpoint lstrip (s : str) : str :=
  match s with
  | a :: s' => if isspace a then lstrip s' else s
  | [] => []
  end.

Definition rstrip (s : str) : str := rev (lstrip (rev s)).

(** [s.strip()] *)
Definition strip (s : str) : str := rstrip (lstrip s).

(** [s.split(sep)] for a one-character separator: the result always has
    one more piece than [s] has separators. *)
Fixpoint split (sep : ascii) (s : str) : list str :=
  match s with
  | [] => [[]]
  | a :: s' =>
      if Ascii.eqb a sep then [] :: split sep s'
      else match split sep s' with
           | piece :: rest => (a :: piece) :: rest
           | [] => [[a]]
           end
  end.

Fixpoint eqb (s t : str) : bool :=
  match s, t with
  | [], [] => true
  | a :: s', b :: t' => Ascii.eqb a b && eqb s' t'
  | _, _ => false
  end.

(** Truth value of a string: the empty string is false. *)
Definition truthy (s : str) : bool :=
  match s with [] => false | _ :: _ => true end.

(** [s[i:j]] for [0 <= i <= j]. *)
Definition slice (s : str) (i j : nat) : str := firstn (j - i) (skipn i s).

End PyStr.

Import PyStr.

(** ** Regular expressions: the backtracking search of [re] *)

Module Re.

(** The fragment of the pattern language the table uses.  [r+] is
    [Cat r (Star r)] and [r?] is [Or r Empty]: with a greedy star and a
    left-biased alternation these try the same candidates in the same
    order as the matcher of [re]. *)
Inductive regex : Type :=
| Class (p : ascii -> bool)
| Empty
| Cat (r1 r2 : regex)
| Or (r1 r2 : regex)
| Star (r : regex)
| Group (n : nat) (r : regex)
| Boundary.

Definition Plus (r : regex) : regex := Cat r (Star r).
Definition Opt (r : regex) : regex := Or r Empty.
Definition Chr (a : ascii) : regex := Class (Ascii.eqb a).

(** A literal word. *)
Fixpoint Lit (w : str) : regex :=
  match w with
  | [] => Empty
  | [a] => Chr a
  | a :: w' => Cat (Chr a) (Lit w')
  end.

(** Number of capturing groups of a pattern. *)
Fixpoint ngroups (r : regex) : nat :=
  match r with
  | Class _ | Empty | Boundary => 0
  | Cat r1 r2 | Or r1 r2 => ngroups r1 + ngroups r2
  | Star r' => ngroups r'
  | Group _ r' => S (ngroups r')
  end.

(** Captures: group number to the span [(start, end)] it matched last. *)
Definition caps := list (nat * (nat * nat)).

Fixpoint get (n : nat) (c : caps) : option (nat * nat) :=
  match c with
  | [] => None
  | (n', sp) :: c' => if Nat.eqb n n' then Some sp else get n c'
  end.

Definition set (n : nat) (sp : nat * nat) (c : caps) : caps := (n, sp) :: c.

Section Matcher.

Variable s : str.

Definition word_at (i : nat) : bool :=
  match nth_error s i with Some a => isword a | None => false end.

(** [\b]: exactly one of the characters around position [i] is a word
    character. *)
Definition at_boundary (i : nat) : bool :=
  xorb (match i with 0 => false | S i' => word_at i' end) (word_at i).

Definition cont := nat -> caps -> option caps.

(** The greedy loop of a star whose body is matched by [body]: take one
    more iteration when the body matches and the rest succeeds, otherwise
    stop here.  An iteration that consumes nothing is refused, so
    [length s - i] rounds of fuel always suffice. *)
Definition star_loop (body : nat -> caps -> cont -> option caps) (k : cont)
  : nat -> nat -> caps -> option caps :=
  fix loop (fuel i : nat) (c : caps) : option caps :=
    match fuel with
    | 0 => k i c
    | S fuel' =>
        match body i c (fun j c' =>
                          if i <? j then loop fuel' j c' else None) with
        | Some res => Some res
        | None => k i c
        end
    end.

(** [m r i c k]: match [r] at position [i] with captures [c], then run
    the continuation [k] on the end position; the first candidate on which
    [k] succeeds wins. *)
Fixpoint m (r : regex) (i : nat) (c : caps) (k : cont) : option caps :=
  match r with
  | Class p =>
      match nth_error s i with
      | Some a => if p a then k (S i) c else None
      | None => None
      end
  | Empty => k i c
  | Cat r1 r2 => m r1 i c (fun j c' => m r2 j c' k)
  | Or r1 r2 =>
      match m r1 i c k with
      | Some res => Some res
      | None => m r2 i c k
      end
  | Star r' => star_loop (m r') k (List.length s - i) i c
  | Group n r' => m r' i c (fun j c' => k j (set n (i, j) c'))
  | Boundary => if at_boundary i then k i c else None
  end.

(** Try the start positions [i, i+1, ..] in turn. *)
Fixpoint search_from (r : regex) (i fuel : nat) : option caps :=
  match m r i [] (fun j c => Some (set 0 (i, j) c)) with
  | Some res => Some res
  | None =>
      match fuel with
      | 0 => None
      | S fuel' => search_from r (S i) fuel'
      end
  end.

End Matcher.

(** When [r] matches: [matches s r i c j c'] says that [r] can match
    [s] from position [i] to position [j], turning the captures [c] into
    [c']. *)
Inductive matches (s : str) : regex -> nat -> caps -> nat -> caps -> Prop :=
| M_class p i c a :
    nth_error s i = Some a -> p a = true ->
    matches s (Class p) i c (S i) c
| M_empty i c : matches s Empty i c i c
| M_cat r1 r2 i c j c1 l c2 :
    matches s r1 i c j c1 -> matches s r2 j c1 l c2 ->
    matches s (Cat r1 r2) i c l c2
| M_or_l r1 r2 i c j c' :
    matches s r1 i c j c' -> matches s (Or r1 r2) i c j c'
| M_or_r r1 r2 i c j c' :
    matches s r2 i c j c' -> matches s (Or r1 r2) i c j c'
| M_star_stop r i c : matches s (Star r) i c i c
| M_star_more r i c j c1 l c2 :
    matches s r i c j c1 -> i < j -> matches s (Star r) j c1 l c2 ->
    matches s (Star r) i c l c2
| M_group n r i c j c' :
    matches s r i c j c' ->
    matches s (Group n r) i c j (set n (i, j) c')
| M_boundary i c :
    at_boundary s i = true -> matches s Boundary i c i c.

(** A match object: the subject, the pattern and the captures. *)
Record Match : Type := mkMatch {
  subject : str;
  pattern : regex;
  spans : caps
}.

(** [re.search(r, s)] *)
Definition search (r : regex) (s : str) : option Match :=
  match search_from s r 0 (List.length s) with
  | Some c => Some (mkMatch s r c)
  | None => None
  end.

(** [mt.group(n)]: [None] when the group took no part in the match. *)
Definition group (mt : Match) (n : nat) : option str :=
  match get n (spans mt) with
  | Some (i, j) => Some (slice (subject mt) i j)
  | None => None
  end.

(** [mt.groups()]: groups 1 .. [ngroups]. *)
Definition groups (mt : Match) : list (option str) :=
  map (group mt) (seq 1 (ngroups (pattern mt))).

End Re.

Import Re.

(** ** Dictionaries

    A Python [dict] keeps its keys in insertion order, and assigning to a
    key that is present keeps the key's place. *)

Module Dict.

Section Dict.

Variable V : Type.

Definition dict := list (str * V).

(** [d.get(k)] *)
Fixpoint get (d : dict) (k : str) : option V :=
  match d with
  | [] => None
  | (k', v) :: d' => if PyStr.eqb k k' then Some v else get d' k
  end.

(** [d.get(k, default)] *)
Definition get_default (d : dict) (k : str) (default : V) : V :=
  match get d k with Some v => v | None => default end.

(** [d[k] = v] *)
Fixpoint set_item (d : dict) (k : str) (v : V) : dict :=
  match d with
  | [] => [(k, v)]
  | (k', v') :: d' =>
      if PyStr.eqb k k' then (k', v) :: d' else (k', v') :: set_item d' k v
  end.

(** [list(d.values())] *)
Definition values (d : dict) : list V := map snd d.

Definition keys (d : dict) : list str := map fst d.

End Dict.

End Dict.

(** ** OCRParameterModel *)

Module OCRParameterModel.

(** [(\d+(?:\.\d+)?)], capturing group [n]. *)
Definition number (n : nat) : regex :=
  Group n (Cat (Plus (Class isdigit))
               (Opt (Cat (Chr ".") (Plus (Class isdigit))))).

Definition ws : regex := Class isspace.

(** [(cm|m|inch|ft|mm)], capturing group [n]. *)
Definition length_unit (n : nat) : regex :=
  Group n (Or (Lit (L "cm")) (Or (Lit (L "m")) (Or (Lit (L "inch"))
          (Or (Lit (L "ft")) (Lit (L "mm")))))).

(** [(\d+(?:\.\d+)?)\s*(?:v|volt|kV|mV)(?:s)?\b] *)
Definition voltage_pattern : regex :=
  Cat (number 1) (Cat (Star ws)
  (Cat (Or (Lit (L "v")) (Or (Lit (L "volt")) (Or (Lit (L "kV")) (Lit (L "mV")))))
  (Cat (Opt (Chr "s")) Boundary))).

(** [(\d+(?:\.\d+)?)\s*(g|kg|lbs?|oz|mg)\b] *)
Definition weight_pattern : regex :=
  Cat (number 1) (Cat (Star ws)
  (Cat (Group 2 (Or (Lit (L "g")) (Or (Lit (L "kg"))
                (Or (Cat (Lit (L "lb")) (Opt (Chr "s")))
                (Or (Lit (L "oz")) (Lit (L "mg")))))))
  Boundary)).

(** [(\d+(?:\.\d+)?)\s*(cm|m|inch|ft|mm)\b] *)
Definition height_pattern : regex :=
  Cat (number 1) (Cat (Star ws) (Cat (length_unit 2) Boundary)).

(** [(\d+(?:\.\d+)?)\s*(ml|l|fl\s?oz|gal)\b] *)
Definition volume_pattern : regex :=
  Cat (number 1) (Cat (Star ws)
  (Cat (Group 2 (Or (Lit (L "ml")) (Or (Lit (L "l"))
                (Or (Cat (Lit (L "fl")) (Cat (Opt ws) (Lit (L "oz"))))
                (Lit (L "gal"))))))
  Boundary)).

(** [(\d+(?:\.\d+)?)\s*(w|watt|mw)(?:s)?\b] *)
Definition wattage_pattern : regex :=
  Cat (number 1) (Cat (Star ws)
  (Cat (Group 2 (Or (Lit (L "w")) (Or (Lit (L "watt")) (Lit (L "mw")))))
  (Cat (Opt (Chr "s")) Boundary))).

(** [(?:depth|d):\s*(\d+(?:\.\d+)?)\s*(cm|m|inch|ft|mm)\b] *)
Definition depth_pattern : regex :=
  Cat (Or (Lit (L "depth")) (Lit (L "d"))) (Cat (Chr ":") (Cat (Star ws)
  (Cat (number 1) (Cat (Star ws) (Cat (length_unit 2) Boundary))))).

(** [(?:width|w):\s*(\d+(?:\.\d+)?)\s*(cm|m|inch|ft|mm)\b] *)
Definition width_pattern : regex :=
  Cat (Or (Lit (L "width")) (Lit (L "w"))) (Cat (Chr ":") (Cat (Star ws)
  (Cat (number 1) (Cat (Star ws) (Cat (length_unit 2) Boundary))))).

(** [(?:max(?:imum)?\s*weight|weight\s*capacity):\s*(\d+(?:\.\d+)?)\s*(kg|lbs?)\b] *)
Definition max_weight_pattern : regex :=
  Cat (Or (Cat (Lit (L "max")) (Cat (Opt (Lit (L "imum")))
               (Cat (Star ws) (Lit (L "weight")))))
          (Cat (Lit (L "weight")) (Cat (Star ws) (Lit (L "capacity")))))
  (Cat (Chr ":") (Cat (Star ws)
  (Cat (number 1) (Cat (Star ws)
  (Cat (Group 2 (Or (Lit (L "kg")) (Cat (Lit (L "lb")) (Opt (Chr "s")))))
  Boundary))))).

(** [self.parameter_patterns] *)
Definition parameter_patterns : Dict.dict regex :=
  [ (L "voltage", voltage_pattern);
    (L "weight", weight_pattern);
    (L "height", height_pattern);
    (L "volume", volume_pattern);
    (L "wattage", wattage_pattern);
    (L "depth", depth_pattern);
    (L "width", width_pattern);
    (L "max_weight", max_weight_pattern) ].

(** What an f-string prints for a group: the text, or [None]. *)
Definition fmt (g : option str) : str :=
  match g with Some v => v | None => L "None" end.

(** [extract_parameter(text, parameter_type)]: [None] for no pattern or no
    match, otherwise the formatted value. *)
Definition extract_parameter (text parameter_type : str) : option str :=
  match Dict.get parameter_patterns (lower parameter_type) with
  | None => None
  | Some pattern =>
      match search pattern (lower text) with
      | Some mt =>
          let '(value, unit) :=
            match groups mt with
            | [value; unit] => (value, unit)
            | _ => (group mt 1, Some [])
            end in
          Some (strip (fmt value ++ L " " ++ fmt unit))
      | None => None
      end
  end.

Section Spans.

(** A recognised span is a triple (region, text, confidence); the second
    engine's spans carry neither region nor confidence. *)
Variables Region Confidence : Type.

Definition span : Type := option Region * str * option Confidence.

Definition text_of (sp : span) : str := snd (fst sp).

(** [detect_text], given what the two engines returned for the image. *)
Definition detect_text (easyocr_results : list span)
    (tesseract_results : str) : list span :=
  easyocr_results
  ++ map (fun text => (None, text, None))
         (filter (fun text => truthy (strip text))
                 (split "010" tesseract_results)).

(** One pass of the inner loop of [detect_parameters]. *)
Definition try_types (text : str) (params_to_find : list str)
    (parameters : Dict.dict str) : Dict.dict str :=
  fold_left (fun parameters param_type =>
               match extract_parameter text param_type with
               | Some result =>
                   if truthy result
                   then Dict.set_item parameters param_type result
                   else parameters
               | None => parameters
               end) params_to_find parameters.

(** [detect_parameters(text_results, params_to_find)] *)
Definition detect_parameters (text_results : list span)
    (params_to_find : list str) : Dict.dict str :=
  fold_left (fun parameters sp => try_types (text_of sp) params_to_find parameters)
            text_results [].

End Spans.

End OCRParameterModel.

Import OCRParameterModel.

(** ** The batch driver *)

Module Batch.

(** A call either returns a value or raises an exception (its message). *)
Inductive outcome (A : Type) : Type :=
| Returns (a : A)
| Raises (e : str).

Arguments Returns {A} a.
Arguments Raises {A} e.

Definition bind {A B : Type} (x : outcome A) (f : A -> outcome B) : outcome B :=
  match x with
  | Returns a => f a
  | Raises e => Raises e
  end.

Notation "x <- e1 ;; e2" := (bind e1 (fun x => e2))
  (at level 61, e1 at next level, right associativity).

(** [os.path.basename]: what follows the last slash. *)
Fixpoint basename (p : str) : str :=
  match p with
  | [] => []
  | a :: p' =>
      if existsb (Ascii.eqb "/") p' then basename p'
      else if Ascii.eqb a "/" then p' else p
  end.

(** [os.path.join] of two components. *)
Definition path_join (a b : str) : str :=
  match b with
  | "/"%char :: _ => b
  | _ =>
      match rev a with
      | [] => b
      | "/"%char :: _ => a ++ b
      | _ => a ++ L "/" ++ b
      end
  end.

Definition no_result : str := L "No result".

(** A cell of the dataset as [pd.read_csv] gives it: a string, or the
    float NaN that stands for an empty cell. *)
Inductive cell : Type :=
| Text (s : str)
| NaN.

Coercion Text : str >-> cell.

(** [entity_mapping.get(entity_name, entity_name)]: the keys are strings,
    so NaN is no key and comes back as the default. *)
Definition resolve (entity_mapping : Dict.dict str) (entity_name : cell)
  : cell :=
  match entity_name with
  | Text name => Text (Dict.get_default entity_mapping name name)
  | NaN => NaN
  end.

(** [extract_parameter] called with a cell as the type: a float has no
    method [lower], so the first line raises. *)
Definition extract_parameter_of (text : str) (parameter_type : cell)
  : outcome (option str) :=
  match parameter_type with
  | Text t => Returns (extract_parameter text t)
  | NaN => Raises (L "AttributeError: 'float' object has no attribute 'lower'")
  end.

(** The inner loop of [detect_parameters] over cells. *)
Fixpoint try_types_of (text : str) (params_to_find : list cell)
    (parameters : Dict.dict str) : outcome (Dict.dict str) :=
  match params_to_find with
  | [] => Returns parameters
  | param_type :: rest =>
      result <- extract_parameter_of text param_type ;;
      match param_type, result with
      | Text t, Some r =>
          if truthy r
          then try_types_of text rest (Dict.set_item parameters t r)
          else try_types_of text rest parameters
      | _, _ => try_types_of text rest parameters
      end
  end.

Section Pipeline.

Variables Image Region Confidence : Type.

(** The collaborators outside the program: the HTTP client, the local
    store, the image library and the two recognition engines.  Each field
    says what the call does for a given argument. *)
Record services : Type := mkServices {
  http_get : str -> outcome N;
  write_file : str -> outcome unit;
  imread : str -> outcome (option Image);
  preprocess_image : Image -> outcome Image;
  readtext : Image -> outcome (list (span Region Confidence));
  image_to_string : Image -> outcome str
}.

Variable sv : services.

(** [download_image]: every exception is caught and turned into [None]. *)
Definition download_image (image_url save_dir : str) : option str :=
  let image_name := path_join save_dir (basename image_url) in
  match http_get sv image_url with
  | Returns status_code =>
      if (status_code =? 200)%N then
        match write_file sv image_name with
        | Returns _ => Some image_name
        | Raises _ => None
        end
      else None
  | Raises _ => None
  end.

(** [OCRParameterModel.detect_text] with the two engine calls. *)
Definition run_detect_text (image : Image)
  : outcome (list (span Region Confidence)) :=
  easyocr_results <- readtext sv image ;;
  tesseract_results <- image_to_string sv image ;;
  Returns (detect_text easyocr_results tesseract_results).

(** [OCRParameterModel.detect_parameters] over cells: the outer loop,
    which stops at the first exception. *)
Fixpoint run_detect_parameters
    (text_results : list (span Region Confidence))
    (params_to_find : list cell) (parameters : Dict.dict str)
  : outcome (Dict.dict str) :=
  match text_results with
  | [] => Returns parameters
  | sp :: text_results' =>
      parameters' <- try_types_of (text_of sp) params_to_find parameters ;;
      run_detect_parameters text_results' params_to_find parameters'
  end.

(** [OCRParameterModel.predict] *)
Definition predict (image_path : str) (params_to_find : list cell)
  : outcome (option (Dict.dict str)) :=
  image <- imread sv image_path ;;
  match image with
  | None => Returns None
  | Some image =>
      preprocessed <- preprocess_image sv image ;;
      text_results <- run_detect_text preprocessed ;;
      parameters <- run_detect_parameters text_results params_to_find [] ;;
      Returns (Some parameters)
  end.

(** [process_image]: no handler of its own. *)
Definition process_image (image_url image_dir : str) (entity_name : cell)
    (entity_mapping : Dict.dict str) : outcome str :=
  match download_image image_url image_dir with
  | Some image_path =>
      if truthy image_path then
        let param_type := resolve entity_mapping entity_name in
        image_predictions <- predict image_path [param_type] ;;
        match image_predictions with
        | Some d =>
            match Dict.values d with
            | v :: _ => Returns v
            | [] => Returns no_result
            end
        | None => Returns no_result
        end
      else Returns no_result
  | None => Returns no_result
  end.

(** A row of the dataset: the link, and the entity name, whose cell may
    be empty. *)
Record row : Type := mkRow {
  image_link : str;
  entity_name : cell
}.

(** The loop over [as_completed(futures)]: [completion] lists the futures'
    indices in the order [as_completed] yields them; [future.result()]
    re-raises what the
    task raised. *)
Fixpoint collect (futures : list (outcome str)) (completion : list nat)
    (results : list str) : outcome (list str) :=
  match completion with
  | [] => Returns results
  | i :: completion' =>
      match nth_error futures i with
      | Some future =>
          r <- future ;;
          collect futures completion' (results ++ [r])
      | None => collect futures completion' results
      end
  end.

(** [chunk['predictions'] = results]: a column has one value per row. *)
Definition set_predictions (chunk : list row) (results : list str)
  : outcome (list (row * str)) :=
  if List.length results =? List.length chunk
  then Returns (combine chunk results)
  else Raises (L "Length of values does not match length of index").

(** [process_chunk], for a given order in which [as_completed] yields
    the futures. *)
Definition process_chunk (chunk : list row) (image_dir : str)
    (entity_mapping : Dict.dict str) (completion : list nat)
  : outcome (list (row * str)) :=
  let futures :=
    map (fun r => process_image (image_link r) image_dir (entity_name r)
                                entity_mapping) chunk in
  results <- collect futures completion [] ;;
  set_predictions chunk results.

End Pipeline.

(** [entity_mapping] of [main] *)
Definition entity_mapping : Dict.dict str :=
  [ (L "item_weight", L "weight");
    (L "item_volume", L "volume");
    (L "max_weight_recommendation", L "max_weight");
    (L "height", L "height");
    (L "width", L "width");
    (L "voltage", L "voltage");
    (L "wattage", L "wattage");
    (L "depth", L "depth") ].

End Batch.

Import Batch.

(** ** Vocabulary of the statements *)

Module Spec.

(** The character of [s] at position [i] exists and satisfies [q]. *)
Definition char_at (s : str) (i : nat) (q : ascii -> bool) : Prop :=
  exists a, nth_error s i = Some a /\ q a = true.

Definition nonspace (a : ascii) : bool := negb (isspace a).

(** Every match of [r] is non-empty and begins with a [q] character. *)
Definition starts (q : ascii -> bool) (r : regex) : Prop :=
  forall s i c j c', matches s r i c j c' -> i < j /\ char_at s i q.

(** Every match of [r] is non-empty and ends with a [q] character. *)
Definition ends (q : ascii -> bool) (r : regex) : Prop :=
  forall s i c j c', matches s r i c j c' -> i < j /\ char_at s (pred j) q.

(** Every match of [r] is empty or ends with a [q] character. *)
Definition ends_or_empty (q : ascii -> bool) (r : regex) : Prop :=
  forall s i c j c', matches s r i c j c' ->
    i = j \/ (i < j /\ char_at s (pred j) q).

(** [s[i:j]] is non-empty and has no blank at either end. *)
Definition solid (s : str) (i j : nat) : Prop :=
  i < j /\ char_at s i nonspace /\ char_at s (pred j) nonspace.

(** A non-empty string that [strip] leaves alone. *)
Definition trimmed (v : str) : Prop :=
  (exists a w, v = a :: w /\ isspace a = false)
  /\ (exists w b, v = w ++ [b] /\ isspace b = false).

(** Two characters that are the same up to letter case. *)
Definition same_letter (a b : ascii) : Prop :=
  b = a \/ b = lower_char a \/ a = lower_char b.

(** [t] is [s] with the case of some of its letters changed. *)
Definition case_variant (s t : str) : Prop := Forall2 same_letter s t.

(** What the code does with a pattern once it has looked it up. *)
Definition extract_with (pattern : regex) (text : str) : option str :=
  match search pattern (lower text) with
  | Some mt =>
      let '(value, unit) :=
        match groups mt with
        | [value; unit] => (value, unit)
        | _ => (group mt 1, Some [])
        end in
      Some (strip (fmt value ++ L " " ++ fmt unit))
  | None => None
  end.

(** The voltage pattern without its [kV] and [mV] alternatives:
    [(\d+(?:\.\d+)?)\s*(?:v|volt)(?:s)?\b]. *)
Definition voltage_v_volt : regex :=
  Cat (number 1) (Cat (Star ws)
  (Cat (Or (Lit (L "v")) (Lit (L "volt")))
  (Cat (Opt (Chr "s")) Boundary))).

(** The patterns of the table with two capturing groups. *)
Definition two_group_patterns : list regex :=
  [ weight_pattern; height_pattern; volume_pattern; wattage_pattern;
    depth_pattern; width_pattern; max_weight_pattern ].

(** What one span contributes for the type [t]. *)
Definition update (text t : str) (acc : option str) : option str :=
  match extract_parameter text t with
  | Some result => if truthy result then Some result else acc
  | None => acc
  end.

(** The result of the last span whose text gives a result for [t]. *)
Definition last_match {Region Confidence : Type} (t : str)
    (text_results : list (span Region Confidence)) : option str :=
  fold_left (fun acc sp => update (text_of sp) t acc) text_results None.

(** ["\n".join(pieces)] for a one-character separator. *)
Fixpoint join (sep : ascii) (pieces : list str) : str :=
  match pieces with
  | [] => []
  | [piece] => piece
  | piece :: rest => piece ++ sep :: join sep rest
  end.

(** The text of a span is blank: empty or whitespace only. *)
Definition blank {Region Confidence : Type}
    (sp : span Region Confidence) : Prop :=
  strip (text_of sp) = [].

(** The values the futures hold, picked in the order of [completion]. *)
Definition picked (vals : list str) (completion : list nat) : list str :=
  flat_map (fun i => match nth_error vals i with
                     | Some v => [v]
                     | None => []
                     end) completion.

(** A span as the second engine gives it. *)
Definition line (text : string) : span unit unit := (None, L text, None).

End Spec.

Import Spec.

(** ** A small catalogue to run the driver on *)

Module Scenario.

Definition image_dir : str := L "/content/images/".

(** An image is known by the file it was read from.  One link is gone
    from the server, one file does not decode, and on one image the
    second engine fails. *)
Definition shop : services str unit unit :=
  mkServices
    (fun url =>
       if PyStr.eqb url (L "http://shop/gone.jpg")
       then Returns 404%N else Returns 200%N)
    (fun _ => Returns tt)
    (fun path =>
       if PyStr.eqb path (L "/content/images/torn.jpg")
       then Returns None else Returns (Some path))
    (fun image => Returns image)
    (fun _ => Returns [])
    (fun image =>
       if PyStr.eqb image (L "/content/images/a.jpg")
       then Returns (L "net weight 5 kg")
       else if PyStr.eqb image (L "/content/images/b.jpg")
       then Returns (L "net weight 7 kg")
       else if PyStr.eqb image (L "/content/images/huge.jpg")
       then Raises (L "tesseract failed")
       else Returns []).

Definition row_a : row := mkRow (L "http://shop/a.jpg") (L "item_weight").
Definition row_b : row := mkRow (L "http://shop/b.jpg") (L "item_weight").
Definition row_gone : row := mkRow (L "http://shop/gone.jpg") (L "item_weight").
Definition row_torn : row := mkRow (L "http://shop/torn.jpg") (L "item_weight").
Definition row_huge : row := mkRow (L "http://shop/huge.jpg") (L "item_weight").

(** A row whose entity name cell is empty. *)
Definition row_unnamed : row := mkRow (L "http://shop/a.jpg") NaN.

(** The per-row task of [process_chunk]. *)
Definition task (r : row) : outcome str :=
  process_image shop (image_link r) image_dir (entity_name r) entity_mapping.

End Scenario.

(** ** Numerals and units *)

Module Vocabulary.

(** The strings a pattern can match, whatever surrounds them. *)
Fixpoint lang (r : regex) (w : str) : Prop :=
  match r with
  | Class p => exists a, w = [a] /\ p a = true
  | Empty => w = []
  | Cat r1 r2 => exists w1 w2, w = w1 ++ w2 /\ lang r1 w1 /\ lang r2 w2
  | Or r1 r2 => lang r1 w \/ lang r2 w
  | Star r' =>
      exists pieces, w = List.concat pieces /\ Forall (lang r') pieces
  | Group _ r' => lang r' w
  | Boundary => w = []
  end.

(** A non-empty run of decimal digits. *)
Definition digits (d : str) : Prop :=
  d <> [] /\ Forall (fun a => isdigit a = true) d.

(** Digits, optionally followed by a point and digits. *)
Definition numeral (v : str) : Prop :=
  exists d1, digits d1
             /\ (v = d1 \/ exists d2, digits d2 /\ v = d1 ++ L "." ++ d2).

(** The unit words of each type that has a unit group. *)
Definition unit_words : Dict.dict (list str) :=
  [ (L "weight", [L "g"; L "kg"; L "lb"; L "lbs"; L "oz"; L "mg"]);
    (L "height", [L "cm"; L "m"; L "inch"; L "ft"; L "mm"]);
    (L "volume", [L "ml"; L "l"; L "floz"; L "gal"]);
    (L "wattage", [L "w"; L "watt"; L "mw"]);
    (L "depth", [L "cm"; L "m"; L "inch"; L "ft"; L "mm"]);
    (L "width", [L "cm"; L "m"; L "inch"; L "ft"; L "mm"]);
    (L "max_weight", [L "kg"; L "lb"; L "lbs"]) ].

(** [u] is a unit of the type [t]: one of its words, or for a volume the
    two words of the fluid ounce with one blank between them. *)
Definition is_unit (t u : str) : Prop :=
  (exists words, Dict.get unit_words t = Some words /\ In u words)
  \/ (t = L "volume"
      /\ exists a, isspace a = true /\ u = L "fl" ++ [a] ++ L "oz").

(** A lower-case letter a..z. *)
Definition isletter (a : ascii) : bool := in_range 97 122 a.

(** A pattern without capturing group and without boundary test. *)
Fixpoint plain (r : regex) : bool :=
  match r with
  | Class _ | Empty => true
  | Cat r1 r2 | Or r1 r2 => plain r1 && plain r2
  | Star r' => plain r'
  | Group _ _ | Boundary => false
  end.

(** [g|kg|lbs?|oz|mg], the alternatives of the weight pattern. *)
Definition weight_alternatives : regex :=
  Or (Lit (L "g")) (Or (Lit (L "kg"))
  (Or (Cat (Lit (L "lb")) (Opt (Chr "s")))
  (Or (Lit (L "oz")) (Lit (L "mg"))))).

(** [cm|m|inch|ft|mm], the alternatives of the height pattern. *)
Definition length_alternatives : regex :=
  Or (Lit (L "cm")) (Or (Lit (L "m")) (Or (Lit (L "inch"))
  (Or (Lit (L "ft")) (Lit (L "mm"))))).

(** The shape of the weight and height patterns: a number, blanks, a
    unit group and a word boundary. *)
Definition number_unit (units : regex) : regex :=
  Cat (number 1) (Cat (Star ws) (Cat (Group 2 units) Boundary)).

End Vocabulary.

Import Vocabulary.

(** ** The loop of [main] *)

Module Main.

(** [chunk_size] of [main] *)
Definition chunk_size : nat := 1000.

(** The chunks [pd.read_csv(.., chunksize=n)] yields: the rows in order,
    [n] at a time, the last chunk with what is left.  The rows bound the
    number of chunks. *)
Fixpoint chunks_of {A : Type} (fuel n : nat) (rows : list A) : list (list A) :=
  match fuel with
  | 0 => []
  | S fuel' =>
      match rows with
      | [] => []
      | _ :: _ => firstn n rows :: chunks_of fuel' n (skipn n rows)
      end
  end.

Definition read_chunks {A : Type} (n : nat) (rows : list A) : list (list A) :=
  chunks_of (List.length rows) n rows.

Section Loop.

Variables Image Region Confidence : Type.
Variable sv : services Image Region Confidence.

(** The loop over the chunks: [completion k] is the order in which the
    futures of chunk [k] are yielded; the predictions of each processed chunk
    are appended to [all_predictions]. *)
Fixpoint main_loop (chunks : list (list row)) (k : nat)
    (completion : nat -> list nat) (all_predictions : list str)
  : outcome (list str) :=
  match chunks with
  | [] => Returns all_predictions
  | chunk :: chunks' =>
      processed_chunk <-
        process_chunk sv chunk Scenario.image_dir entity_mapping
                      (completion k) ;;
      main_loop chunks' (S k) completion
                (all_predictions ++ map snd processed_chunk)
  end.

(** [main], from the rows of the input file to the column written to the
    output file. *)
Definition main (rows : list row) (completion : nat -> list nat)
  : outcome (list str) :=
  main_loop (read_chunks chunk_size rows) 0 completion [].

End Loop.

End Main.

Import Main.

(** * Properties *)

(** ** The matcher against the match relation *)

Module ReFacts.

Section Sound.

Variable s : str.

Lemma star_loop_ext (body : nat -> caps -> cont -> option caps) :
  (forall i c k1 k2, (forall j c', k1 j c' = k2 j c') ->
                     body i c k1 = body i c k2) ->
  forall fuel i c k1 k2, (forall j c', k1 j c' = k2 j c') ->
    star_loop body k1 fuel i c = star_loop body k2 fuel i c.
Proof.
  intros Hbody fuel.
  induction fuel as [|fuel IH]; intros i c k1 k2 Hk; simpl.
  - apply Hk.
  - rewrite (Hbody i c _ (fun j c' =>
               if i <? j then star_loop body k2 fuel j c' else None)).
    + rewrite Hk. reflexivity.
    + intros j c'. destruct (i <? j); [apply IH; assumption | reflexivity].
Qed.

(** The matcher only looks at what its continuation returns. *)
Lemma m_ext (r : regex) :
  forall i c k1 k2, (forall j c', k1 j c' = k2 j c') ->
    m s r i c k1 = m s r i c k2.
Proof.
  induction r as [p| |r1 IH1 r2 IH2|r1 IH1 r2 IH2|r IH|n r IH|];
    intros i c k1 k2 Hk; simpl.
  - destruct (nth_error s i) as [a|]; [|reflexivity].
    destruct (p a); [apply Hk | reflexivity].
  - apply Hk.
  - apply IH1. intros j c'. apply IH2. assumption.
  - rewrite (IH1 i c k1 k2 Hk), (IH2 i c k1 k2 Hk). reflexivity.
  - apply star_loop_ext; assumption.
  - apply IH. intros j c'. apply Hk.
  - destruct (at_boundary s i); [apply Hk | reflexivity].
Qed.

Lemma star_loop_sound (r : regex) :
  (forall i c k res, m s r i c k = Some res ->
     exists j c', matches s r i c j c' /\ k j c' = Some res) ->
  forall fuel i c k res, star_loop (m s r) k fuel i c = Some res ->
    exists j c', matches s (Star r) i c j c' /\ k j c' = Some res.
Proof.
  intros IH fuel.
  induction fuel as [|fuel IHf]; intros i c k res H; simpl in H.
  - exists i, c. split; [constructor | assumption].
  - destruct (m s r i c _) as [res'|] eqn:E.
    + injection H as <-.
      apply IH in E. destruct E as (j & c1 & Hm & Hk).
      destruct (i <? j) eqn:Hij; [|discriminate].
      apply Nat.ltb_lt in Hij.
      apply IHf in Hk. destruct Hk as (l & c2 & Hs & Hk).
      exists l, c2. split; [|assumption].
      eapply M_star_more; eassumption.
    + exists i, c. split; [constructor | assumption].
Qed.

(** Soundness: an answer of the matcher comes from a match on which the
    continuation gave that answer. *)
Theorem m_sound (r : regex) :
  forall i c k res, m s r i c k = Some res ->
    exists j c', matches s r i c j c' /\ k j c' = Some res.
Proof.
  induction r as [p| |r1 IH1 r2 IH2|r1 IH1 r2 IH2|r IH|n r IH|];
    intros i c k res H; simpl in H.
  - destruct (nth_error s i) as [a|] eqn:E; [|discriminate].
    destruct (p a) eqn:Ep; [|discriminate].
    exists (S i), c. split; [econstructor; eassumption | assumption].
  - exists i, c. split; [constructor | assumption].
  - apply IH1 in H. destruct H as (j & c1 & H1 & H).
    apply IH2 in H. destruct H as (l & c2 & H2 & H).
    exists l, c2. split; [econstructor; eassumption | assumption].
  - destruct (m s r1 i c k) as [res'|] eqn:E.
    + injection H as <-. apply IH1 in E. destruct E as (j & c' & Hm & Hk).
      exists j, c'. split; [apply M_or_l; assumption | assumption].
    + apply IH2 in H. destruct H as (j & c' & Hm & Hk).
      exists j, c'. split; [apply M_or_r; assumption | assumption].
  - eapply star_loop_sound; eassumption.
  - apply IH in H. destruct H as (j & c' & Hm & Hk).
    exists j, (set n (i, j) c'). split; [constructor; assumption | assumption].
  - destruct (at_boundary s i) eqn:E; [|discriminate].
    exists i, c. split; [constructor; assumption | assumption].
Qed.

Lemma search_from_sound (r : regex) :
  forall fuel i res, search_from s r i fuel = Some res ->
    exists i' j c', matches s r i' [] j c' /\ res = set 0 (i', j) c'.
Proof.
  induction fuel as [|fuel IH]; intros i res H; simpl in H;
    destruct (m s r i [] _) as [res'|] eqn:E.
  - injection H as <-. apply m_sound in E.
    destruct E as (j & c' & Hm & Hk). injection Hk as <-. eauto.
  - discriminate.
  - injection H as <-. apply m_sound in E.
    destruct E as (j & c' & Hm & Hk). injection Hk as <-. eauto.
  - eapply IH; eassumption.
Qed.

(** The matcher calls its continuation only between its start position
    and the end of the subject. *)
Lemma m_local (r : regex) :
  forall i c k1 k2,
    (forall j c', i <= j <= Nat.max i (List.length s) -> k1 j c' = k2 j c') ->
    m s r i c k1 = m s r i c k2.
Proof.
  induction r as [p| |r1 IH1 r2 IH2|r1 IH1 r2 IH2|r IH|n r IH|];
    intros i c k1 k2 Hk; cbn [m].
  - destruct (nth_error s i) as [a|] eqn:E; [|reflexivity].
    destruct (p a); [|reflexivity].
    apply Hk. assert (i < List.length s) by (apply nth_error_Some; congruence).
    lia.
  - apply Hk. lia.
  - apply IH1. intros j c' Hj. apply IH2. intros l c'' Hl. apply Hk. lia.
  - rewrite (IH1 i c k1 k2 Hk), (IH2 i c k1 k2 Hk). reflexivity.
  - generalize (List.length s - i) as fuel. intros fuel.
    revert i c Hk. induction fuel as [|fuel IHf]; intros i c Hk; cbn [star_loop].
    + apply Hk. lia.
    + rewrite (IH i c _ (fun j c' =>
                 if i <? j then star_loop (m s r) k2 fuel j c' else None)).
      * rewrite (Hk i c) by lia. reflexivity.
      * intros j c' Hj. destruct (i <? j); [|reflexivity].
        apply IHf. intros l c'' Hl. apply Hk. lia.
  - apply IH. intros j c' Hj. apply Hk. lia.
  - destruct (at_boundary s i); [apply Hk; lia | reflexivity].
Qed.

Lemma m_no_answer (r : regex) i c : m s r i c (fun _ _ => None) = None.
Proof.
  destruct (m s r i c (fun _ _ => None)) as [res|] eqn:E; [|reflexivity].
  apply m_sound in E. destruct E as (j & c' & _ & E). discriminate.
Qed.

(** The fuel of the star is enough: more fuel changes no answer. *)
Theorem star_fuel_enough (r : regex) (k : cont) :
  forall fuel1 fuel2 i c,
    List.length s - i <= fuel1 -> List.length s - i <= fuel2 ->
    star_loop (m s r) k fuel1 i c = star_loop (m s r) k fuel2 i c.
Proof.
  assert (Hend : forall fuel i c,
            List.length s <= i -> star_loop (m s r) k fuel i c = k i c).
  { intros [|fuel] i c Hi; cbn [star_loop]; [reflexivity|].
    rewrite (@m_local r i c _ (fun _ _ => None)), m_no_answer; [reflexivity|].
    intros j c' Hj. replace j with i by lia.
    rewrite Nat.ltb_irrefl. reflexivity. }
  induction fuel1 as [|fuel1 IH]; intros fuel2 i c H1 H2.
  - rewrite !Hend by lia. reflexivity.
  - destruct fuel2 as [|fuel2]; [rewrite !Hend by lia; reflexivity|].
    cbn [star_loop].
    rewrite (@m_local r i c _ (fun j c' =>
               if i <? j then star_loop (m s r) k fuel2 j c' else None));
      [reflexivity|].
    intros j c' Hj. destruct (i <? j) eqn:E; [|reflexivity].
    apply Nat.ltb_lt in E. apply IH; lia.
Qed.

End Sound.

(** What a successful [re.search] tells: the pattern matches somewhere,
    and the match object records that match. *)
Theorem search_sound (r : regex) (s : str) (mt : Match) :
  search r s = Some mt ->
  exists i j c', matches s r i [] j c'
                 /\ mt = mkMatch s r (set 0 (i, j) c').
Proof.
  unfold search. intros H.
  destruct (search_from s r 0 (List.length s)) as [c|] eqn:E; [|discriminate].
  injection H as <-.
  apply search_from_sound in E. destruct E as (i & j & c' & Hm & ->).
  eauto.
Qed.

End ReFacts.

(** ** Where matches begin and end *)

Module Shape.

Lemma matches_le s r i c j c' : matches s r i c j c' -> i <= j.
Proof. induction 1; lia. Qed.

(** A pattern without capturing groups leaves the captures alone. *)
Lemma keeps s r i c j c' :
  matches s r i c j c' -> ngroups r = 0 -> c' = c.
Proof.
  induction 1; simpl; intros Hn; try reflexivity; try discriminate.
  - rewrite IHmatches2, IHmatches1 by lia. reflexivity.
  - apply IHmatches. lia.
  - apply IHmatches. lia.
  - rewrite IHmatches2, IHmatches1 by assumption. reflexivity.
Qed.

Lemma inv_class s p i c j c' :
  matches s (Class p) i c j c' ->
  j = S i /\ c' = c /\ exists a, nth_error s i = Some a /\ p a = true.
Proof. intros H. inversion H; subst. eauto. Qed.

Lemma inv_empty s i c j c' : matches s Empty i c j c' -> j = i /\ c' = c.
Proof. intros H. inversion H; subst. auto. Qed.

Lemma inv_cat s r1 r2 i c l c2 :
  matches s (Cat r1 r2) i c l c2 ->
  exists j c1, matches s r1 i c j c1 /\ matches s r2 j c1 l c2.
Proof. intros H. inversion H; subst. eauto. Qed.

Lemma inv_or s r1 r2 i c j c' :
  matches s (Or r1 r2) i c j c' ->
  matches s r1 i c j c' \/ matches s r2 i c j c'.
Proof. intros H. inversion H; subst; auto. Qed.

Lemma inv_group s n r i c j c' :
  matches s (Group n r) i c j c' ->
  exists c1, matches s r i c j c1 /\ c' = set n (i, j) c1.
Proof. intros H. inversion H; subst. eauto. Qed.

Lemma inv_boundary s i c j c' :
  matches s Boundary i c j c' ->
  j = i /\ c' = c /\ at_boundary s i = true.
Proof. intros H. inversion H; subst. auto. Qed.

Lemma starts_class (p q : ascii -> bool) :
  (forall a, p a = true -> q a = true) -> starts q (Class p).
Proof.
  intros Hpq s i c j c' H.
  apply inv_class in H. destruct H as (-> & _ & a & Ha & Hp).
  split; [lia | exists a; auto].
Qed.

Lemma ends_class (p q : ascii -> bool) :
  (forall a, p a = true -> q a = true) -> ends q (Class p).
Proof.
  intros Hpq s i c j c' H.
  apply inv_class in H. destruct H as (-> & _ & a & Ha & Hp).
  split; [lia | exists a; auto].
Qed.

Lemma starts_cat q r1 r2 : starts q r1 -> starts q (Cat r1 r2).
Proof.
  intros H1 s i c j c' H.
  apply inv_cat in H. destruct H as (l & c1 & Ha & Hb).
  apply H1 in Ha. apply matches_le in Hb. split; [lia | tauto].
Qed.

Lemma ends_cat q r1 r2 : ends q r2 -> ends q (Cat r1 r2).
Proof.
  intros H2 s i c j c' H.
  apply inv_cat in H. destruct H as (l & c1 & Ha & Hb).
  apply H2 in Hb. apply matches_le in Ha. split; [lia | tauto].
Qed.

Lemma ends_cat_weak q r1 r2 :
  ends q r1 -> ends_or_empty q r2 -> ends q (Cat r1 r2).
Proof.
  intros H1 H2 s i c j c' H.
  apply inv_cat in H. destruct H as (l & c1 & Ha & Hb).
  apply H1 in Ha. apply H2 in Hb.
  destruct Hb as [->|[Hlt Hc]]; [assumption | split; [lia | assumption]].
Qed.

Lemma starts_or q r1 r2 : starts q r1 -> starts q r2 -> starts q (Or r1 r2).
Proof. intros H1 H2 s i c j c' H. apply inv_or in H. destruct H; eauto. Qed.

Lemma ends_or q r1 r2 : ends q r1 -> ends q r2 -> ends q (Or r1 r2).
Proof. intros H1 H2 s i c j c' H. apply inv_or in H. destruct H; eauto. Qed.

Lemma starts_group q n r : starts q r -> starts q (Group n r).
Proof.
  intros H1 s i c j c' H. apply inv_group in H. destruct H as (c1 & H & _).
  eauto.
Qed.

Lemma ends_group q n r : ends q r -> ends q (Group n r).
Proof.
  intros H1 s i c j c' H. apply inv_group in H. destruct H as (c1 & H & _).
  eauto.
Qed.

Lemma weak_of_ends q r : ends q r -> ends_or_empty q r.
Proof. intros H1 s i c j c' H. right. eauto. Qed.

Lemma weak_empty q : ends_or_empty q Empty.
Proof. intros s i c j c' H. apply inv_empty in H. left. symmetry. tauto. Qed.

Lemma weak_or q r1 r2 :
  ends_or_empty q r1 -> ends_or_empty q r2 -> ends_or_empty q (Or r1 r2).
Proof. intros H1 H2 s i c j c' H. apply inv_or in H. destruct H; eauto. Qed.

Lemma weak_star q r : ends q r -> ends_or_empty q (Star r).
Proof.
  intros H1 s i c j c' H.
  remember (Star r) as r0 eqn:E.
  induction H; try discriminate; injection E as ->.
  - now left.
  - right. destruct (IHmatches2 eq_refl) as [<-|[Hlt Hc]].
    + apply H1 in H. assumption.
    + split; [lia | assumption].
Qed.

(** All characters of a run [p*] are [p] characters. *)
Lemma star_class_run s p i c j c' :
  matches s (Star (Class p)) i c j c' ->
  forall q, i <= q < j -> char_at s q p.
Proof.
  intros H. remember (Star (Class p)) as r0 eqn:E.
  induction H; try discriminate; injection E as ->; intros q Hq.
  - lia.
  - apply inv_class in H. destruct H as (-> & _ & a & Ha & Hp).
    destruct (Nat.eq_dec q i) as [->|Hne].
    + exists a. auto.
    + apply IHmatches2; [reflexivity | lia].
Qed.

(** A capturing group around a group-free pattern with solid ends. *)
Lemma group_shape n r s i c j c' :
  ngroups r = 0 -> starts nonspace r -> ends nonspace r ->
  matches s (Group n r) i c j c' ->
  c' = set n (i, j) c /\ solid s i j.
Proof.
  intros Hn Hs He H. apply inv_group in H. destruct H as (c1 & H & ->).
  rewrite (keeps H Hn). split; [reflexivity|].
  destruct (Hs _ _ _ _ _ H) as [Hlt Hc1].
  destruct (He _ _ _ _ _ H) as [_ Hc2].
  repeat split; assumption.
Qed.

Lemma digit_nonspace a : isdigit a = true -> nonspace a = true.
Proof.
  destruct a as [[] [] [] [] [] [] [] []]; vm_compute; congruence.
Qed.

Lemma chr_class (q : ascii -> bool) (a : ascii) :
  q a = true -> forall b, Ascii.eqb a b = true -> q b = true.
Proof. intros Hq b Hb. apply Ascii.eqb_eq in Hb. subst. assumption. Qed.

Create HintDb edges.

#[export] Hint Resolve starts_cat ends_cat ends_cat_weak starts_or ends_or
  starts_group ends_group weak_of_ends weak_empty weak_or weak_star : edges.
#[export] Hint Extern 1 (starts _ (Class isdigit)) =>
  apply starts_class; first [exact digit_nonspace | intros ? ?; assumption]
  : edges.
#[export] Hint Extern 1 (ends _ (Class isdigit)) =>
  apply ends_class; first [exact digit_nonspace | intros ? ?; assumption]
  : edges.
#[export] Hint Extern 1 (starts _ (Class (Ascii.eqb _))) =>
  apply starts_class; apply chr_class; reflexivity : edges.
#[export] Hint Extern 1 (ends _ (Class (Ascii.eqb _))) =>
  apply ends_class; apply chr_class; reflexivity : edges.

(** Unfold a table pattern down to classes, then chain the lemmas. *)
Ltac edges :=
  cbv [number length_unit ws Plus Opt Chr Lit L list_ascii_of_string];
  eauto 20 with edges.

Lemma number_body_starts :
  starts nonspace (Cat (Plus (Class isdigit))
                       (Opt (Cat (Chr ".") (Plus (Class isdigit))))).
Proof. edges. Qed.

Lemma number_body_ends q :
  (forall a, isdigit a = true -> q a = true) ->
  ends q (Cat (Plus (Class isdigit))
              (Opt (Cat (Chr ".") (Plus (Class isdigit))))).
Proof.
  intros Hq.
  assert (He : ends q (Class isdigit)) by (apply ends_class; exact Hq).
  cbv [Plus Opt Chr]. eauto 20 with edges.
Qed.

(** The number group captures a solid span and ends with a digit. *)
Lemma number_shape n s i c j c' :
  matches s (number n) i c j c' ->
  c' = set n (i, j) c /\ solid s i j /\ char_at s (pred j) isdigit.
Proof.
  intros H. unfold number in H.
  assert (Hd : i < j /\ char_at s (pred j) isdigit).
  { apply inv_group in H. destruct H as (c1 & H & _).
    assert (He := @number_body_ends isdigit (fun a Ha => Ha)).
    exact (He _ _ _ _ _ H). }
  apply group_shape in H;
    [ | reflexivity | exact number_body_starts
      | exact (number_body_ends nonspace digit_nonspace) ].
  tauto.
Qed.

(** Split a match of a concatenation chain into its pieces, then read
    off what each piece does to the captures. *)
Ltac chain :=
  repeat match goal with
  | H : matches _ (Cat _ _) _ _ _ _ |- _ =>
      apply inv_cat in H; destruct H as (? & ? & H & ?)
  end.

Ltac pieces :=
  repeat match goal with
  | H : matches _ (number _) _ _ _ _ |- _ =>
      apply number_shape in H; destruct H as (-> & ? & ?)
  | H : matches _ (length_unit _) _ _ _ _ |- _ => unfold length_unit in H
  | H : matches _ (Group _ _) _ _ _ _ |- _ =>
      apply group_shape in H;
      [ destruct H as (-> & ?) | reflexivity | solve [edges] | solve [edges] ]
  | H : matches _ _ _ _ _ _ |- _ =>
      apply keeps in H; [ subst | reflexivity ]
  end.

(** Wherever the voltage pattern matches, group 1 is a solid span. *)
Lemma voltage_shape s i j c' :
  matches s voltage_pattern i [] j c' ->
  exists i1 j1, c' = [(1, (i1, j1))] /\ solid s i1 j1.
Proof.
  intros H. unfold voltage_pattern in H. chain. pieces.
  eexists _, _. split; [reflexivity | assumption].
Qed.

(** Wherever a two-group pattern matches, both groups are solid spans. *)
Lemma two_group_shape p s i j c' :
  In p two_group_patterns ->
  matches s p i [] j c' ->
  exists i1 j1 i2 j2,
    c' = [(2, (i2, j2)); (1, (i1, j1))] /\ solid s i1 j1 /\ solid s i2 j2.
Proof.
  intros Hp H. simpl in Hp.
  repeat (destruct Hp as [<-|Hp]); try contradiction;
    match type of H with
    | matches _ ?pat _ _ _ _ => unfold pat in H
    end;
    chain; pieces;
    (eexists _, _, _, _; split; [reflexivity | split; assumption]).
Qed.

End Shape.

(** ** Strings: slices and [strip] *)

Module StrFacts.

Lemma eqb_eq (s t : str) : PyStr.eqb s t = true <-> s = t.
Proof.
  revert t. induction s as [|a s IH]; intros [|b t]; simpl;
    try (split; [discriminate | discriminate]); try tauto.
  rewrite andb_true_iff, Ascii.eqb_eq, IH.
  split; [intros [-> ->]; reflexivity | intros [= -> ->]; auto].
Qed.

Lemma eqb_refl (s : str) : PyStr.eqb s s = true.
Proof. apply eqb_eq. reflexivity. Qed.

Lemma eqb_neq (s t : str) : PyStr.eqb s t = false <-> s <> t.
Proof.
  rewrite <- eqb_eq. destruct (PyStr.eqb s t); split; congruence.
Qed.

Lemma lstrip_head a w : isspace a = false -> lstrip (a :: w) = a :: w.
Proof. intros H. simpl. rewrite H. reflexivity. Qed.

Lemma rstrip_last w b : isspace b = false -> rstrip (w ++ [b]) = w ++ [b].
Proof.
  intros H. unfold rstrip. rewrite rev_app_distr. simpl. rewrite H.
  simpl. rewrite rev_involutive. reflexivity.
Qed.

Lemma strip_trimmed v : trimmed v -> strip v = v.
Proof.
  intros [(a & w & -> & Ha) (w' & b & E & Hb)]. unfold strip.
  rewrite lstrip_head by assumption. rewrite E. apply rstrip_last, Hb.
Qed.

(** Joining two trimmed strings with a blank gives a string that [strip]
    leaves alone. *)
Lemma strip_join v u :
  trimmed v -> trimmed u -> strip (v ++ L " " ++ u) = v ++ L " " ++ u.
Proof.
  intros [(a & w & -> & Ha) _] [_ (w' & b & -> & Hb)]. unfold strip.
  assert (E : (a :: w) ++ L " " ++ w' ++ [b]
              = (a :: w ++ L " " ++ w') ++ [b]).
  { simpl. rewrite <- !app_assoc. reflexivity. }
  rewrite E. change ((a :: w ++ L " " ++ w') ++ [b])
    with (a :: (w ++ L " " ++ w') ++ [b]) at 1.
  rewrite lstrip_head by assumption.
  apply (rstrip_last (a :: w ++ L " " ++ w')), Hb.
Qed.

Lemma rstrip_blank_end x : rstrip (x ++ [" "%char]) = rstrip x.
Proof. unfold rstrip. rewrite rev_app_distr. reflexivity. Qed.

(** With an empty unit, [strip] removes the joining blank again. *)
Lemma strip_value_only v : trimmed v -> strip (v ++ L " " ++ []) = v.
Proof.
  intros Hv. pose proof (strip_trimmed Hv) as Hid.
  destruct Hv as [(a & w & -> & Ha) _]. unfold strip in *.
  rewrite lstrip_head in Hid by assumption.
  change ((a :: w) ++ L " " ++ []) with (a :: (w ++ [" "%char])).
  rewrite lstrip_head by assumption.
  change (a :: w ++ [" "%char]) with ((a :: w) ++ [" "%char]).
  rewrite rstrip_blank_end. exact Hid.
Qed.

Lemma slice_head s i j a :
  i < j -> nth_error s i = Some a -> exists w, slice s i j = a :: w.
Proof.
  intros Hlt Ha. apply nth_error_split in Ha. destruct Ha as (l1 & l2 & -> & <-).
  unfold slice. rewrite skipn_app, Nat.sub_diag, skipn_all. simpl.
  destruct (j - List.length l1) as [|k] eqn:E; [lia|]. simpl. eauto.
Qed.

Lemma slice_last s i j b :
  i < j -> nth_error s (pred j) = Some b -> exists w, slice s i j = w ++ [b].
Proof.
  intros Hlt Hb. apply nth_error_split in Hb.
  destruct Hb as (l1 & l2 & -> & Hlen).
  unfold slice. rewrite skipn_app.
  replace (i - List.length l1) with 0 by lia. simpl skipn.
  rewrite firstn_app, length_skipn.
  rewrite firstn_all2 by (rewrite length_skipn; lia).
  replace (j - i - (List.length l1 - i)) with 1 by lia.
  simpl. eauto.
Qed.

(** A solid span is a trimmed string. *)
Lemma solid_slice s i j : solid s i j -> trimmed (slice s i j).
Proof.
  intros (Hlt & (a & Ha & Hna) & (b & Hb & Hnb)).
  unfold nonspace in *. apply negb_true_iff in Hna, Hnb.
  destruct (@slice_head s i j a Hlt Ha) as [w Hw].
  destruct (@slice_last s i j b Hlt Hb) as [w' Hw'].
  split; [exists a, w | exists w', b]; auto.
Qed.

End StrFacts.

(** ** What the extractor returns *)

Module ExtractFacts.

Import ReFacts Shape StrFacts.

Lemma extract_parameter_eq text t :
  extract_parameter text t =
  match Dict.get parameter_patterns (lower t) with
  | Some p => extract_with p text
  | None => None
  end.
Proof. reflexivity. Qed.

Lemma get_in_values (V : Type) (d : Dict.dict V) k v :
  Dict.get d k = Some v -> In v (Dict.values d).
Proof.
  induction d as [|[k' v'] d IH]; simpl; [discriminate|].
  destruct (PyStr.eqb k k'); [intros [= ->]; auto | auto].
Qed.

(** The table holds the voltage pattern and the two-group patterns. *)
Lemma table_patterns k p :
  Dict.get parameter_patterns k = Some p ->
  p = voltage_pattern \/ In p two_group_patterns.
Proof.
  intros H. apply get_in_values in H. simpl in H.
  destruct H as [<-|H]; [left; reflexivity | right; exact H].
Qed.

Lemma two_group_count p : In p two_group_patterns -> ngroups p = 2.
Proof.
  simpl. intros H.
  repeat (destruct H as [<-|H]; [reflexivity|]). contradiction.
Qed.

(** A match of the voltage pattern: the result is group 1, as captured. *)
Lemma extract_with_voltage text mt :
  search voltage_pattern (lower text) = Some mt ->
  exists v, group mt 1 = Some v /\ trimmed v
            /\ extract_with voltage_pattern text = Some v.
Proof.
  intros H. unfold extract_with. rewrite H.
  apply search_sound in H. destruct H as (i & j & c' & Hm & ->).
  apply voltage_shape in Hm. destruct Hm as (i1 & j1 & -> & Hs).
  apply solid_slice in Hs.
  exists (slice (lower text) i1 j1). split; [reflexivity|]. split; [assumption|].
  change (Some (strip (slice (lower text) i1 j1 ++ L " " ++ []))
          = Some (slice (lower text) i1 j1)).
  rewrite strip_value_only by assumption. reflexivity.
Qed.

(** A match of a two-group pattern: the result is group 1, a blank,
    group 2, each as captured. *)
Lemma extract_with_two p text mt :
  In p two_group_patterns ->
  search p (lower text) = Some mt ->
  exists v u, group mt 1 = Some v /\ group mt 2 = Some u
              /\ trimmed v /\ trimmed u
              /\ extract_with p text = Some (v ++ L " " ++ u).
Proof.
  intros Hp H. unfold extract_with. rewrite H.
  apply search_sound in H. destruct H as (i & j & c' & Hm & ->).
  apply (two_group_shape Hp) in Hm.
  destruct Hm as (i1 & j1 & i2 & j2 & -> & Hs1 & Hs2).
  apply solid_slice in Hs1, Hs2.
  exists (slice (lower text) i1 j1), (slice (lower text) i2 j2).
  repeat (split; [reflexivity || assumption|]).
  unfold groups. simpl pattern. rewrite (two_group_count Hp).
  change (Some (strip (slice (lower text) i1 j1 ++ L " "
                       ++ slice (lower text) i2 j2))
          = Some (slice (lower text) i1 j1 ++ L " "
                  ++ slice (lower text) i2 j2)).
  rewrite strip_join by assumption. reflexivity.
Qed.

(** Every result of the extractor is a non-empty string. *)
Lemma extract_truthy text t r :
  extract_parameter text t = Some r -> truthy r = true.
Proof.
  rewrite extract_parameter_eq.
  destruct (Dict.get parameter_patterns (lower t)) as [p|] eqn:E;
    [|discriminate].
  intros H. apply table_patterns in E.
  assert (Hs : exists mt, search p (lower text) = Some mt).
  { unfold extract_with in H.
    destruct (search p (lower text)) as [mt|]; [eauto | discriminate]. }
  destruct Hs as [mt Hs].
  destruct E as [->|Hp].
  - destruct (extract_with_voltage _ Hs) as (v & _ & [(a & w & -> & _) _] & E).
    rewrite E in H. injection H as <-. reflexivity.
  - destruct (extract_with_two _ Hp Hs)
      as (v & u & _ & _ & [(a & w & -> & _) _] & _ & E).
    rewrite E in H. injection H as <-. reflexivity.
Qed.

End ExtractFacts.

(** ** Dictionaries and the two loops of [detect_parameters] *)

Module DetectFacts.

Import StrFacts ExtractFacts.

Lemma get_set_item (V : Type) (d : Dict.dict V) k v k' :
  Dict.get (Dict.set_item d k v) k' =
  if PyStr.eqb k' k then Some v else Dict.get d k'.
Proof.
  induction d as [|[k0 v0] d IH]; simpl; [reflexivity|].
  destruct (PyStr.eqb k k0) eqn:E; simpl.
  - apply eqb_eq in E. subst k0.
    destruct (PyStr.eqb k' k); reflexivity.
  - rewrite IH. destruct (PyStr.eqb k' k0) eqn:E0; [|reflexivity].
    destruct (PyStr.eqb k' k) eqn:E1; [|reflexivity].
    apply eqb_eq in E0, E1. subst. rewrite eqb_refl in E. discriminate.
Qed.

Lemma get_absent (V : Type) (d : Dict.dict V) k :
  ~ In k (Dict.keys d) -> Dict.get d k = None.
Proof.
  induction d as [|[k0 v0] d IH]; simpl; [reflexivity|]. intros H.
  destruct (PyStr.eqb k k0) eqn:E.
  - apply eqb_eq in E. subst. tauto.
  - apply IH. tauto.
Qed.

Lemma try_types_get text t params :
  forall d,
    Dict.get (try_types text params d) t =
    if existsb (PyStr.eqb t) params then update text t (Dict.get d t)
    else Dict.get d t.
Proof.
  unfold try_types, update.
  induction params as [|p params IH]; intros d; simpl; [reflexivity|].
  rewrite IH. clear IH.
  destruct (PyStr.eqb t p) eqn:E; simpl.
  - apply eqb_eq in E. subst p.
    destruct (extract_parameter text t) as [r|] eqn:Er.
    + destruct (truthy r) eqn:Ht.
      * destruct (existsb (PyStr.eqb t) params);
          [reflexivity | rewrite get_set_item, eqb_refl; reflexivity].
      * destruct (existsb (PyStr.eqb t) params); reflexivity.
    + destruct (existsb (PyStr.eqb t) params); reflexivity.
  - assert (Hd : Dict.get
        match extract_parameter text p with
        | Some result =>
            if truthy result then Dict.set_item d p result else d
        | None => d
        end t = Dict.get d t).
    { destruct (extract_parameter text p) as [r|]; [|reflexivity].
      destruct (truthy r); [|reflexivity].
      rewrite get_set_item, E. reflexivity. }
    rewrite Hd. reflexivity.
Qed.

Section Detect.

Variables Region Confidence : Type.

Lemma last_match_from t (spans : list (span Region Confidence)) acc :
  fold_left (fun acc sp => update (text_of sp) t acc) spans acc =
  match last_match t spans with
  | Some r => Some r
  | None => acc
  end.
Proof.
  unfold last_match. revert acc. induction spans as [|sp spans IH] using rev_ind; intros acc.
  - reflexivity.
  - rewrite !fold_left_app. simpl. unfold update at 1 3.
    destruct (extract_parameter (text_of sp) t) as [r|]; [|apply IH].
    destruct (truthy r); [reflexivity | apply IH].
Qed.

(** The value under [t] after the walk: that of the last span giving a
    result for [t], when [t] was asked for. *)
Theorem detect_parameters_get (spans : list (span Region Confidence)) params t :
  Dict.get (detect_parameters spans params) t =
  if existsb (PyStr.eqb t) params then last_match t spans else None.
Proof.
  unfold detect_parameters.
  assert (G : forall d,
    Dict.get (fold_left (fun parameters (sp : span Region Confidence) =>
                try_types (text_of sp) params parameters) spans d) t =
    if existsb (PyStr.eqb t) params
    then fold_left (fun acc (sp : span Region Confidence) => update (text_of sp) t acc)
                   spans (Dict.get d t)
    else Dict.get d t).
  { induction spans as [|sp spans IH]; intros d; simpl.
    - destruct (existsb (PyStr.eqb t) params); reflexivity.
    - rewrite IH, try_types_get.
      destruct (existsb (PyStr.eqb t) params); reflexivity. }
  rewrite G. simpl.
  destruct (existsb (PyStr.eqb t) params); [|reflexivity].
  rewrite last_match_from. destruct (last_match t spans); reflexivity.
Qed.

Lemma last_match_app t (pre post : list (span Region Confidence)) :
  last_match t (pre ++ post) =
  match last_match t post with
  | Some r => Some r
  | None => last_match t pre
  end.
Proof.
  unfold last_match at 1. rewrite fold_left_app.
  fold (last_match t pre).
  exact (last_match_from t post (last_match t pre)).
Qed.

Lemma last_match_none t (spans : list (span Region Confidence)) :
  (forall sp, In sp spans -> extract_parameter (text_of sp) t = None) ->
  last_match t spans = None.
Proof.
  unfold last_match. induction spans as [|sp spans IH]; intros H; simpl.
  - reflexivity.
  - unfold update at 2. rewrite (H sp) by (left; reflexivity).
    apply IH. intros sp' Hin. apply H. right. assumption.
Qed.

Lemma asked_for t params : In t params -> existsb (PyStr.eqb t) params = true.
Proof.
  intros H. apply existsb_exists. exists t. split; [assumption|apply eqb_refl].
Qed.

End Detect.

End DetectFacts.

(** ** Letter case *)

Module CaseFacts.

Import ReFacts Shape StrFacts ExtractFacts.

Lemma lower_char_idem a : lower_char (lower_char a) = lower_char a.
Proof. destruct a as [[] [] [] [] [] [] [] []]; reflexivity. Qed.

Lemma lower_char_not_upper a : isupper (lower_char a) = false.
Proof. destruct a as [[] [] [] [] [] [] [] []]; reflexivity. Qed.

Lemma same_letter_lower a b : same_letter a b -> lower_char a = lower_char b.
Proof.
  intros [->|[->| ->]]; [reflexivity | |]; rewrite lower_char_idem; reflexivity.
Qed.

(** Changing the case of letters does not change the lowered text. *)
Lemma case_variant_lower s t : case_variant s t -> lower s = lower t.
Proof.
  induction 1 as [|a b s t Hab _ IH]; simpl; [reflexivity|].
  rewrite (same_letter_lower Hab), IH. reflexivity.
Qed.

(** Lowered text holds no capital letter. *)
Lemma lower_no_upper text i a :
  nth_error (lower text) i = Some a -> isupper a = false.
Proof.
  unfold lower. rewrite nth_error_map.
  destruct (nth_error text i) as [b|]; simpl; [|discriminate].
  intros [= <-]. apply lower_char_not_upper.
Qed.

Lemma lower_keeps text :
  Forall (fun a => isupper a = false) text -> lower text = text.
Proof.
  induction 1 as [|a text Ha _ IH]; simpl; [reflexivity|].
  unfold lower_char. rewrite Ha. fold (lower text). rewrite IH. reflexivity.
Qed.

Section NoCapitalV.

Variable s : str.
Hypothesis no_V : forall i, nth_error s i <> Some "V"%char.

(** On a subject without the letter, a literal that ends in a capital V
    never matches. *)
Lemma lit_xV_fails x i c k : m s (Lit [x; "V"%char]) i c k = None.
Proof.
  cbn [Lit Chr m]. destruct (nth_error s i) as [a|]; [|reflexivity].
  destruct (Ascii.eqb x a); [|reflexivity].
  destruct (nth_error s (S i)) as [b|] eqn:E; [|reflexivity].
  destruct (Ascii.eqb "V" b) eqn:Eb; [|reflexivity].
  apply Ascii.eqb_eq in Eb. subst b. destruct (no_V _ E).
Qed.

(** Dropping the two alternatives changes no answer of the matcher. *)
Lemma voltage_alternatives i c k :
  m s voltage_pattern i c k = m s voltage_v_volt i c k.
Proof.
  unfold voltage_pattern, voltage_v_volt.
  change (m s (Cat (number 1) ?r) i c k)
    with (m s (number 1) i c (fun j c' => m s r j c' k)).
  cbn [m]. apply m_ext. intros j c'.
  apply star_loop_ext; [intros; apply m_ext; assumption|].
  intros j' c''.
  change (L "kV") with ["k"%char; "V"%char].
  change (L "mV") with ["m"%char; "V"%char].
  rewrite !lit_xV_fails. 
  destruct (m s (Lit (L "v")) j' c'' _); [reflexivity|].
  destruct (m s (Lit (L "volt")) j' c'' _); reflexivity.
Qed.

Lemma voltage_search_from fuel :
  forall i, search_from s voltage_pattern i fuel
            = search_from s voltage_v_volt i fuel.
Proof.
  induction fuel as [|fuel IH]; intros i; cbn [search_from];
    rewrite voltage_alternatives;
    destruct (m s voltage_v_volt i [] _); auto.
Qed.

End NoCapitalV.

(** On lowered text the voltage pattern gives what it gives without its
    [kV] and [mV] alternatives. *)
Lemma voltage_extract_with text :
  extract_with voltage_pattern text = extract_with voltage_v_volt text.
Proof.
  unfold extract_with, search.
  rewrite voltage_search_from.
  - destruct (search_from (lower text) voltage_v_volt 0 _); reflexivity.
  - intros i H. apply lower_no_upper in H. discriminate.
Qed.

(** Where the pattern without the two alternatives matches, there is a
    letter v right after a digit or a blank. *)
Lemma v_volt_needs s i j c' :
  matches s voltage_v_volt i [] j c' ->
  exists q, 0 < q /\ nth_error s q = Some "v"%char
            /\ char_at s (pred q) (fun a => isdigit a || isspace a).
Proof.
  intros H. unfold voltage_v_volt in H.
  apply inv_cat in H. destruct H as (j1 & c1 & Hnum & H).
  apply inv_cat in H. destruct H as (j2 & c2 & Hws & H).
  apply inv_cat in H. destruct H as (j3 & c3 & Hunit & _).
  apply number_shape in Hnum. destruct Hnum as (_ & (Hlt & _) & Hd).
  assert (Hv : starts (Ascii.eqb "v") (Or (Lit (L "v")) (Lit (L "volt")))).
  { cbv [Lit L list_ascii_of_string Chr].
    apply starts_or; [|apply starts_cat]; apply starts_class; auto. }
  apply Hv in Hunit. destruct Hunit as (_ & a & Ha & Ea).
  apply Ascii.eqb_eq in Ea. subst a.
  pose proof (matches_le Hws) as Hle.
  exists j2. split; [lia|]. split; [assumption|].
  destruct (Nat.eq_dec j1 j2) as [<-|Hne].
  - destruct Hd as (d & Hd & Ed). exists d. rewrite Ed. auto.
  - destruct (star_class_run Hws (q:=pred j2)) as (b & Hb & Eb); [lia|].
    exists b. unfold ws in Eb. rewrite Eb, orb_true_r. auto.
Qed.

(** After digits and blanks, a unit spelt with a letter other than v
    before its final v leaves no v right after a digit or a blank. *)
Lemma no_v_after_number pre x q :
  Forall (fun a => isdigit a || isspace a = true) pre ->
  isdigit x || isspace x = false -> x <> "v"%char ->
  nth_error (pre ++ [x; "v"%char]) q = Some "v"%char -> 0 < q ->
  ~ char_at (pre ++ [x; "v"%char]) (pred q) (fun a => isdigit a || isspace a).
Proof.
  intros Hpre Hx Hxv Hq Hpos (b & Hb & Eb).
  rewrite Forall_forall in Hpre.
  destruct (Nat.lt_ge_cases q (List.length pre)) as [Hlt|Hge].
  - rewrite nth_error_app1 in Hq by assumption.
    apply nth_error_In, Hpre in Hq. discriminate.
  - rewrite nth_error_app2 in Hq by assumption.
    destruct (q - List.length pre) as [|[|d]] eqn:E; simpl in Hq.
    + congruence.
    + rewrite nth_error_app2 in Hb by lia.
      replace (pred q - List.length pre) with 0 in Hb by lia.
      simpl in Hb. injection Hb as <-. congruence.
    + destruct d; discriminate.
Qed.

Lemma digit_not_upper a : isdigit a = true -> isupper a = false.
Proof. destruct a as [[] [] [] [] [] [] [] []]; vm_compute; congruence. Qed.

Lemma space_not_upper a : isspace a = true -> isupper a = false.
Proof. destruct a as [[] [] [] [] [] [] [] []]; vm_compute; congruence. Qed.

End CaseFacts.

(** ** Lines of text *)

Module SplitFacts.

Lemma split_nonempty sep s : split sep s <> [].
Proof.
  destruct s as [|a s]; simpl; [discriminate|].
  destruct (Ascii.eqb a sep); [discriminate|].
  destruct (split sep s); discriminate.
Qed.

(** Joining the pieces with the separator gives the text back. *)
Lemma join_split sep s : join sep (split sep s) = s.
Proof.
  induction s as [|a s IH]; [reflexivity|]. cbn [split].
  destruct (Ascii.eqb a sep) eqn:E.
  - apply Ascii.eqb_eq in E. subst a.
    destruct (split sep s) as [|p rest] eqn:Es; [destruct (split_nonempty _ _ Es)|].
    cbn [join app]. cbn [join] in IH. rewrite IH. reflexivity.
  - destruct (split sep s) as [|p rest] eqn:Es; [destruct (split_nonempty _ _ Es)|].
    destruct rest as [|p' rest]; cbn [join app] in *; rewrite IH; reflexivity.
Qed.

(** No piece holds the separator. *)
Lemma split_no_sep sep s piece :
  In piece (split sep s) -> ~ In sep piece.
Proof.
  revert piece. induction s as [|a s IH]; intros piece; cbn [split].
  - intros [<-|[]] [].
  - destruct (Ascii.eqb a sep) eqn:E.
    + intros [<-|H]; [intros [] | apply IH, H].
    + destruct (split sep s) as [|p rest] eqn:Es.
      * destruct (split_nonempty _ _ Es).
      * intros [<-|H]; [|apply IH; right; exact H].
        intros [->|Hin]; [rewrite Ascii.eqb_refl in E; discriminate|].
        apply (IH p); [left; reflexivity | exact Hin].
Qed.

End SplitFacts.

(** ** The chunk loop *)

Module BatchFacts.

(** When every task returns, the loop gathers the values in completion
    order. *)
Lemma collect_returns vals completion :
  forall acc,
    collect (map Returns vals) completion acc
    = Returns (acc ++ picked vals completion).
Proof.
  induction completion as [|i completion IH]; intros acc; simpl.
  - rewrite app_nil_r. reflexivity.
  - rewrite nth_error_map.
    destruct (nth_error vals i) as [v|]; simpl.
    + rewrite IH, <- app_assoc. reflexivity.
    + apply IH.
Qed.

Lemma flat_map_agree (A B : Type) (f g : A -> list B) l :
  (forall a, In a l -> f a = g a) -> flat_map f l = flat_map g l.
Proof.
  induction l as [|a l IH]; intros H; simpl; [reflexivity|].
  rewrite (H a) by (left; reflexivity).
  rewrite IH by (intros b Hb; apply H; right; exact Hb). reflexivity.
Qed.

Lemma picked_in_order vals : picked vals (seq 0 (List.length vals)) = vals.
Proof.
  unfold picked. induction vals as [|v vals IH] using rev_ind; [reflexivity|].
  rewrite length_app. simpl List.length. rewrite Nat.add_1_r, seq_S.
  rewrite flat_map_app. simpl.
  rewrite nth_error_app2, Nat.sub_diag by lia. simpl.
  f_equal. rewrite <- IH at 2.
  apply flat_map_agree. intros i Hi. apply in_seq in Hi.
  rewrite nth_error_app1 by lia. reflexivity.
Qed.

Lemma picked_length vals completion :
  Permutation completion (seq 0 (List.length vals)) ->
  List.length (picked vals completion) = List.length vals.
Proof.
  intros H. rewrite <- (picked_in_order vals) at 2. unfold picked.
  apply Permutation_length, (Permutation_flat_map _ H).
Qed.

Section Chunk.

Variables Image Region Confidence : Type.
Variable sv : services Image Region Confidence.
Variables (chunk : list row) (image_dir : str) (mapping : Dict.dict str).
Variable vals : list str.

(** Every task of the chunk returns; [vals] are the values, row by row. *)
Hypothesis tasks_return :
  map (fun r => process_image sv (image_link r) image_dir (entity_name r)
                              mapping) chunk
  = map Returns vals.

(** Whatever the completion order, the chunk comes back with one
    prediction per row: the values in completion order. *)
Lemma process_chunk_returns completion :
  Permutation completion (seq 0 (List.length chunk)) ->
  process_chunk sv chunk image_dir mapping completion
  = Returns (combine chunk (picked vals completion))
  /\ List.length (picked vals completion) = List.length chunk.
Proof.
  intros Hperm.
  assert (Hlen : List.length vals = List.length chunk).
  { rewrite <- (length_map Returns vals), <- tasks_return.
    apply length_map. }
  rewrite <- Hlen in Hperm. pose proof (picked_length _ Hperm) as Hp.
  split; [|lia].
  unfold process_chunk. rewrite tasks_return, collect_returns. simpl.
  unfold set_predictions. rewrite Hp, Hlen, Nat.eqb_refl. reflexivity.
Qed.

(** When the futures are yielded in row order, each row gets its own
    value. *)
Lemma process_chunk_in_order :
  process_chunk sv chunk image_dir mapping (seq 0 (List.length chunk))
  = Returns (combine chunk vals).
Proof.
  assert (Hlen : List.length vals = List.length chunk).
  { rewrite <- (length_map Returns vals), <- tasks_return.
    apply length_map. }
  destruct (process_chunk_returns (Permutation_refl _)) as [-> _].
  rewrite <- Hlen, picked_in_order. reflexivity.
Qed.

End Chunk.

End BatchFacts.

(** * The specification, claim by claim *)

Import ReFacts Shape StrFacts ExtractFacts DetectFacts CaseFacts SplitFacts
  BatchFacts Scenario.

(** ** Resolution order in [detect_parameters] *)

(** C1, as stated, fails: with two spans that both match the weight
    pattern, the value kept is the one of the second span. *)
Lemma C1_first_match_refuted :
  extract_parameter (L "5 kg") (L "weight") = Some (L "5 kg")
  /\ extract_parameter (L "7 kg") (L "weight") = Some (L "7 kg")
  /\ detect_parameters [line "5 kg"; line "7 kg"] [L "weight"]
     = [(L "weight", L "7 kg")]
  /\ Dict.get (detect_parameters [line "5 kg"; line "7 kg"] [L "weight"])
              (L "weight")
     <> extract_parameter (L "5 kg") (L "weight").
Proof. repeat split; try (vm_compute; reflexivity). vm_compute. discriminate. Qed.

(** C1, amended: resolution is last-match-wins.  For a requested type
    [t], when the span [B] gives the value [v] for [t] and no span after
    [B] matches [t], the walk returns [v] under [t], whatever the spans
    before [B] gave: a later matching span overwrites an earlier one. *)
Theorem C1_last_match_wins (Region Confidence : Type)
    (before after : list (span Region Confidence))
    (B : span Region Confidence) (params : list str) (t v : str) :
  In t params ->
  extract_parameter (text_of B) t = Some v ->
  (forall sp, In sp after -> extract_parameter (text_of sp) t = None) ->
  Dict.get (detect_parameters (before ++ B :: after) params) t = Some v.
Proof.
  intros Hin HB Hafter.
  rewrite detect_parameters_get, (asked_for _ _ Hin).
  change (B :: after) with ([B] ++ after).
  rewrite !last_match_app, (last_match_none _ _ Hafter).
  unfold last_match at 1. simpl. unfold update.
  rewrite HB, (extract_truthy _ _ HB). reflexivity.
Qed.

Lemma C1_last_match_wins_witness :
  Dict.get (detect_parameters
              ([line "5 kg"] ++ line "7 kg" :: [line "other text"])
              [L "weight"]) (L "weight")
  = Some (L "7 kg").
Proof.
  apply (@C1_last_match_wins unit unit [line "5 kg"] [line "other text"]
           (line "7 kg") [L "weight"] (L "weight") (L "7 kg")).
  - simpl. left. reflexivity.
  - vm_compute. reflexivity.
  - intros sp [<-|[]]. vm_compute. reflexivity.
Defined.

(** C8: over an empty evidence stream nothing is resolved, whatever
    types are asked for. *)
Theorem C8_empty_stream (Region Confidence : Type) (params : list str) :
  @detect_parameters Region Confidence [] params = []
  /\ forall t, Dict.get (@detect_parameters Region Confidence [] params) t
               = None.
Proof. split; [reflexivity | intros t; reflexivity]. Qed.

(** ** Types without a pattern *)

(** C7, as stated, fails: the table has no entry under [WEIGHT], yet
    extraction for that type gives a result, because the type name is
    lowered before the table is consulted. *)
Lemma C7_uppercase_type_resolves :
  Dict.get parameter_patterns (L "WEIGHT") = None
  /\ extract_parameter (L "5 kg") (L "WEIGHT") = Some (L "5 kg")
  /\ detect_parameters [line "5 kg"] [L "WEIGHT"] = [(L "WEIGHT", L "5 kg")].
Proof. repeat split; vm_compute; reflexivity. Qed.

(** C7, amended: for a type whose lowered name has no entry in the
    table, extraction gives nothing for every text, and the walk over any
    spans resolves nothing under that type.  (The functions are total:
    nothing is raised.) *)
Theorem C7_unknown_type_absent (t : str) :
  Dict.get parameter_patterns (lower t) = None ->
  (forall text, extract_parameter text t = None)
  /\ (forall (Region Confidence : Type)
             (spans : list (span Region Confidence)) params,
        Dict.get (detect_parameters spans params) t = None).
Proof.
  intros H.
  assert (Hx : forall text, extract_parameter text t = None).
  { intros text. rewrite extract_parameter_eq, H. reflexivity. }
  split; [exact Hx|].
  intros Region Confidence spans params.
  rewrite detect_parameters_get.
  destruct (existsb (PyStr.eqb t) params); [|reflexivity].
  apply last_match_none. intros sp _. apply Hx.
Qed.

Lemma C7_unknown_type_absent_witness :
  (forall text, extract_parameter text (L "colour") = None)
  /\ (forall (Region Confidence : Type)
             (spans : list (span Region Confidence)) params,
        Dict.get (detect_parameters spans params) (L "colour") = None).
Proof. apply (C7_unknown_type_absent (L "colour")). reflexivity. Defined.

(** ** Letter case of the text *)

(** C5: extraction gives the same result on a text and on every
    letter-casing variant of it, for every type. *)
Theorem C5_case_insensitive (t text text' : str) :
  case_variant text text' ->
  extract_parameter text t = extract_parameter text' t.
Proof.
  intros H. rewrite !extract_parameter_eq. unfold extract_with.
  rewrite (case_variant_lower H). reflexivity.
Qed.

Lemma C5_case_insensitive_witness :
  extract_parameter (L "120V") (L "voltage")
  = extract_parameter (L "120v") (L "voltage").
Proof.
  apply (C5_case_insensitive (L "voltage") (text:=L "120V") (text':=L "120v")).
  repeat (apply Forall2_cons; [first [left; reflexivity
                                     | right; left; reflexivity]|]).
  apply Forall2_nil.
Defined.

(** ** The format of a result *)

(** C6: the weight scenario gives exactly [{weight: "2.5 kg"}].  In
    general, for a type of the table and a text on which its pattern
    matches: a pattern with two groups gives the two captured groups, each
    already free of blanks at its ends, joined by one blank; the pattern
    with one group gives the captured value alone. *)
Theorem C6_value_unit_format :
  detect_parameters [line "package weight 2.5kg net"; line "other text"]
                    [L "weight"]
  = [(L "weight", L "2.5 kg")]
  /\ forall text t p mt,
       Dict.get parameter_patterns (lower t) = Some p ->
       search p (lower text) = Some mt ->
       (ngroups p = 2 ->
        exists value unit,
          groups mt = [Some value; Some unit]
          /\ strip value = value /\ strip unit = unit
          /\ extract_parameter text t = Some (value ++ L " " ++ unit))
       /\ (ngroups p <> 2 ->
           exists value,
             groups mt = [Some value] /\ strip value = value
             /\ extract_parameter text t = Some value).
Proof.
  split; [vm_compute; reflexivity|].
  intros text t p mt Hp Hs.
  rewrite extract_parameter_eq, Hp.
  destruct (table_patterns _ Hp) as [->|Hin].
  - split; [intros H; discriminate H|]. intros _.
    destruct (extract_with_voltage _ Hs) as (v & Hg & Hv & E).
    exists v. repeat split; [|apply strip_trimmed, Hv | exact E].
    apply search_sound in Hs. destruct Hs as (i & j & c' & _ & ->).
    unfold groups. simpl. simpl in Hg. rewrite Hg. reflexivity.
  - split; [intros _ | intros H; destruct (H (two_group_count Hin))].
    destruct (extract_with_two _ Hin Hs) as (v & u & Hg1 & Hg2 & Hv & Hu & E).
    exists v, u.
    repeat split; [|apply strip_trimmed, Hv | apply strip_trimmed, Hu | exact E].
    apply search_sound in Hs. destruct Hs as (i & j & c' & _ & ->).
    unfold groups. simpl pattern. rewrite (two_group_count Hin).
    simpl. simpl in Hg1, Hg2. rewrite Hg1, Hg2. reflexivity.
Qed.

Lemma C6_value_unit_format_witness :
  exists value unit,
    strip value = value /\ strip unit = unit
    /\ extract_parameter (L "Net Wt 12.5 OZ") (L "weight")
       = Some (value ++ L " " ++ unit).
Proof.
  destruct (proj2 C6_value_unit_format (L "Net Wt 12.5 OZ") (L "weight")
              weight_pattern
              (mkMatch (L "net wt 12.5 oz") weight_pattern
                       [(0, (7, 14)); (2, (12, 14)); (1, (7, 11))]))
    as [H _]; [reflexivity | vm_compute; reflexivity |].
  destruct (H eq_refl) as (value & unit & _ & Hv & Hu & E).
  exists value, unit. auto.
Defined.

(** ** The kilovolt and millivolt alternatives *)

(** C10: the [kV] and [mV] alternatives of the voltage pattern never
    take part in a result: on every text, extraction for [voltage] gives
    what the pattern without them gives; and a text made of digits, blanks
    and then [kV] or [mV] in any letter casing gives no result. *)
Theorem C10_kv_mv_unreachable :
  (forall text,
     extract_parameter text (L "voltage") = extract_with voltage_v_volt text)
  /\ (forall digits blanks unit,
        Forall (fun a => isdigit a = true) digits ->
        Forall (fun a => isspace a = true) blanks ->
        lower unit = L "kv" \/ lower unit = L "mv" ->
        extract_parameter (digits ++ blanks ++ unit) (L "voltage") = None).
Proof.
  assert (H1 : forall text,
    extract_parameter text (L "voltage") = extract_with voltage_v_volt text).
  { intros text. rewrite <- voltage_extract_with. reflexivity. }
  split; [exact H1|].
  intros digits blanks unit Hd Hb Hu. rewrite H1.
  unfold extract_with.
  destruct (search voltage_v_volt (lower (digits ++ blanks ++ unit)))
    as [mt|] eqn:E; [exfalso | reflexivity].
  apply search_sound in E. destruct E as (i & j & c' & Hm & _).
  apply v_volt_needs in Hm. destruct Hm as (q & Hq & Hv & Hc).
  assert (Hpre : Forall (fun a => isdigit a || isspace a = true)
                        (digits ++ blanks)).
  { apply Forall_app. split; eapply Forall_impl; try eassumption;
      cbv beta; intros a Ha; rewrite Ha; auto using orb_true_r. }
  assert (El : lower (digits ++ blanks ++ unit)
               = (digits ++ blanks) ++ lower unit).
  { unfold lower. rewrite !map_app. fold (lower digits) (lower blanks).
    rewrite (lower_keeps (text:=digits)), (lower_keeps (text:=blanks)), app_assoc.
    - reflexivity.
    - eapply Forall_impl; [|exact Hb]. apply space_not_upper.
    - eapply Forall_impl; [|exact Hd]. apply digit_not_upper. }
  rewrite El in Hv, Hc.
  destruct Hu as [Hu|Hu]; rewrite Hu in Hv, Hc;
    revert Hc; apply (no_v_after_number Hpre); auto; discriminate.
Qed.

Lemma C10_kv_mv_unreachable_witness :
  extract_parameter (L "120" ++ L " " ++ L "kV") (L "voltage") = None.
Proof.
  apply (proj2 C10_kv_mv_unreachable (L "120") (L " ") (L "kV")).
  - repeat constructor.
  - repeat constructor.
  - left. reflexivity.
Defined.

(** ** Fusion of the two engines *)

(** C4, as stated, fails: a blank span of the first engine is kept. *)
Lemma C4_blank_span_kept :
  detect_text [(Some tt, L " ", Some tt)] (L "5 kg")
  = [(Some tt, L " ", Some tt); line "5 kg"]
  /\ blank (Some tt, L " ", Some tt)
  /\ In (Some tt, L " ", Some tt)
        (detect_text [(Some tt, L " ", Some tt)] (L "5 kg")).
Proof. repeat split; [left; reflexivity]. Qed.

(** C4, amended: the fused stream is the first engine's spans as they
    are, in their order, followed by the second engine's lines in line
    order without the blank ones.  The lines are the pieces of the text
    between line feeds.  Every span that is not one of the first engine's
    is not blank; so when the first engine gives no blank span the stream
    holds none. *)
Theorem C4_fusion (Region Confidence : Type)
    (easyocr_results : list (span Region Confidence))
    (tesseract_results : str) :
  let lines := split "010" tesseract_results in
  let kept := filter (fun text => truthy (strip text)) lines in
  detect_text easyocr_results tesseract_results
  = easyocr_results ++ map (fun text => (None, text, None)) kept
  /\ join "010" lines = tesseract_results
  /\ (forall text, In text lines -> ~ In "010"%char text)
  /\ (forall text, In text kept <-> In text lines /\ strip text <> [])
  /\ (forall sp, In sp (detect_text easyocr_results tesseract_results) ->
                 In sp easyocr_results \/ ~ blank sp)
  /\ (Forall (fun sp => ~ blank sp) easyocr_results ->
      Forall (fun sp => ~ blank sp)
             (detect_text easyocr_results tesseract_results)).
Proof.
  intros lines kept.
  assert (Hkept : forall text,
            In text kept <-> In text lines /\ strip text <> []).
  { intros text. unfold kept. rewrite filter_In.
    destruct (strip text); simpl; intuition congruence. }
  assert (Hsp : forall sp,
            In sp (detect_text easyocr_results tesseract_results) ->
            In sp easyocr_results \/ ~ blank sp).
  { intros sp Hin. unfold detect_text in Hin. apply in_app_or in Hin.
    destruct Hin as [Hin|Hin]; [left; exact Hin | right].
    apply in_map_iff in Hin. destruct Hin as (text & <- & Hin).
    apply Hkept in Hin. exact (proj2 Hin). }
  split; [reflexivity|].
  split; [apply join_split|].
  split; [intros text; apply split_no_sep|].
  split; [exact Hkept|].
  split; [exact Hsp|].
  intros HA. apply Forall_forall. intros sp Hin.
  destruct (Hsp sp Hin) as [H|H]; [|exact H].
  rewrite Forall_forall in HA. apply HA, H.
Qed.

Lemma C4_fusion_witness :
  Forall (fun sp : span unit unit => ~ blank sp)
         (detect_text [(Some tt, L "12 V", Some tt)]
                      (L "net weight 5 kg" ++ ["010"%char; " "%char])).
Proof.
  apply (C4_fusion [(Some tt, L "12 V", Some tt)]
                   (L "net weight 5 kg" ++ ["010"%char; " "%char])).
  repeat constructor. unfold blank. vm_compute. discriminate.
Defined.

(** ** The batch driver *)

(** C9: the parameter type of a row is the mapping's entry for its
    entity name when there is one, and the entity name itself otherwise;
    it is the one type [process_image] asks the model for. *)
Theorem C9_entity_resolution (name : str) :
  let param_type := Dict.get_default entity_mapping name name in
  (forall v, In (name, v) entity_mapping -> param_type = v)
  /\ (~ In name (Dict.keys entity_mapping) -> param_type = name)
  /\ (forall (Image Region Confidence : Type)
             (sv : services Image Region Confidence) url dir path,
        download_image sv url dir = Some path -> truthy path = true ->
        process_image sv url dir name entity_mapping
        = (image_predictions <- predict sv path [Text param_type] ;;
           match image_predictions with
           | Some d => match Dict.values d with
                       | v :: _ => Returns v
                       | [] => Returns no_result
                       end
           | None => Returns no_result
           end)).
Proof.
  intros param_type. split; [|split].
  - intros v Hin. subst param_type. simpl in Hin.
    repeat (destruct Hin as [[= <- <-]|Hin]; [reflexivity|]).
    contradiction.
  - intros Hout. subst param_type. unfold Dict.get_default.
    rewrite (get_absent _ _ Hout). reflexivity.
  - intros Image Region Confidence sv url dir path Hd Ht.
    unfold process_image. rewrite Hd, Ht. reflexivity.
Qed.

Lemma C9_entity_resolution_witness :
  Dict.get_default entity_mapping (L "item_weight") (L "item_weight")
  = L "weight"
  /\ Dict.get_default entity_mapping (L "colour") (L "colour") = L "colour".
Proof.
  split.
  - apply (proj1 (C9_entity_resolution (L "item_weight"))).
    simpl. left. reflexivity.
  - apply (proj1 (proj2 (C9_entity_resolution (L "colour")))).
    simpl. intros H.
    repeat (destruct H as [H|H]; [discriminate H|]). exact H.
Defined.

(** C2, at a failing input: two rows whose tasks give [5 kg] and
    [7 kg]; when the second future is yielded first, the chunk comes back with
    [7 kg] on the first row and [5 kg] on the second.  The length is that
    of the chunk, the correspondence is that of completion. *)
Theorem C2_completion_order_decides_rows :
  task row_a = Returns (L "5 kg")
  /\ task row_b = Returns (L "7 kg")
  /\ process_chunk shop [row_a; row_b] image_dir entity_mapping [1; 0]
     = Returns [(row_a, L "7 kg"); (row_b, L "5 kg")]
  /\ process_chunk shop [row_a; row_b] image_dir entity_mapping [0; 1]
     = Returns [(row_a, L "5 kg"); (row_b, L "7 kg")].
Proof. repeat split; vm_compute; reflexivity. Qed.

(** C3, at two failing inputs: a row on whose image the second engine
    raises, and a row whose entity name cell is empty (NaN, on which the
    extractor's [lower] raises once the stream has a span).  In both the
    exception is not caught in the row's task; it comes out of
    [process_chunk], and the results of the other rows are lost with it. *)
Theorem C3_row_errors_escape :
  task row_huge = Raises (L "tesseract failed")
  /\ task row_unnamed
     = Raises (L "AttributeError: 'float' object has no attribute 'lower'")
  /\ task row_a = Returns (L "5 kg")
  /\ process_chunk shop [row_a; row_huge] image_dir entity_mapping [0; 1]
     = Raises (L "tesseract failed")
  /\ process_chunk shop [row_a; row_unnamed] image_dir entity_mapping [0; 1]
     = Raises (L "AttributeError: 'float' object has no attribute 'lower'").
Proof. repeat split; vm_compute; reflexivity. Qed.

(** * Further properties of the code *)

(** ** The dictionary built by [detect_parameters] *)

Module DictFacts.

Import StrFacts DetectFacts ExtractFacts.

Lemma keys_set_item (V : Type) (d : Dict.dict V) k v k' :
  In k' (Dict.keys (Dict.set_item d k v)) <-> k' = k \/ In k' (Dict.keys d).
Proof.
  induction d as [|[k0 v0] d IH]; simpl.
  - intuition auto.
  - destruct (PyStr.eqb k k0) eqn:E; simpl.
    + apply eqb_eq in E. subst k0. intuition auto.
    + rewrite IH. intuition auto.
Qed.

(** Assigning to a key never makes a key appear twice. *)
Lemma nodup_set_item (V : Type) (d : Dict.dict V) k v :
  NoDup (Dict.keys d) -> NoDup (Dict.keys (Dict.set_item d k v)).
Proof.
  induction d as [|[k0 v0] d IH]; simpl; intros H.
  - constructor; [intros [] | constructor].
  - destruct (PyStr.eqb k k0) eqn:E; simpl; [exact H|].
    inversion H as [|? ? Hnot Hd]; subst. constructor; [|apply IH, Hd].
    rewrite keys_set_item. intros [->|Hin]; [|exact (Hnot Hin)].
    rewrite eqb_refl in E. discriminate.
Qed.

Lemma in_keys_get (V : Type) (d : Dict.dict V) k :
  In k (Dict.keys d) <-> Dict.get d k <> None.
Proof.
  induction d as [|[k0 v0] d IH]; simpl; [intuition congruence|].
  destruct (PyStr.eqb k k0) eqn:E.
  - apply eqb_eq in E. subst. intuition congruence.
  - apply eqb_neq in E. rewrite <- IH. intuition congruence.
Qed.

Lemma nodup_try_types text params :
  forall d, NoDup (Dict.keys d) ->
            NoDup (Dict.keys (try_types text params d)).
Proof.
  unfold try_types. induction params as [|p params IH]; intros d H; simpl.
  - exact H.
  - apply IH. destruct (extract_parameter text p) as [r|]; [|exact H].
    destruct (truthy r); [apply nodup_set_item, H | exact H].
Qed.

(** A span that matches none of the requested types changes nothing. *)
Lemma try_types_no_match text params d :
  (forall t, In t params -> extract_parameter text t = None) ->
  try_types text params d = d.
Proof.
  unfold try_types. revert d.
  induction params as [|p params IH]; intros d H; simpl; [reflexivity|].
  rewrite (H p) by (left; reflexivity).
  apply IH. intros t Ht. apply H. right. exact Ht.
Qed.

Section Walk.

Variables Region Confidence : Type.

Lemma last_match_single t (sp : span Region Confidence) :
  last_match t [sp] = extract_parameter (text_of sp) t.
Proof.
  unfold last_match, update. simpl.
  destruct (extract_parameter (text_of sp) t) as [r|] eqn:E; [|reflexivity].
  rewrite (extract_truthy _ _ E). reflexivity.
Qed.

(** A value of [last_match] comes from a span after which nothing
    matches. *)
Lemma last_match_some t (spans : list (span Region Confidence)) v :
  last_match t spans = Some v <->
  exists before B after,
    spans = before ++ B :: after
    /\ extract_parameter (text_of B) t = Some v
    /\ forall sp, In sp after -> extract_parameter (text_of sp) t = None.
Proof.
  split.
  - induction spans as [|x spans IH] using rev_ind; [discriminate|].
    rewrite last_match_app, last_match_single.
    destruct (extract_parameter (text_of x) t) as [r|] eqn:E.
    + intros [= ->]. exists spans, x, []. repeat split; auto.
      intros sp [].
    + intros H. destruct (IH H) as (before & B & after & -> & HB & Hafter).
      exists before, B, (after ++ [x]). rewrite <- app_assoc. repeat split; auto.
      intros sp Hin. apply in_app_or in Hin.
      destruct Hin as [Hin|[<-|[]]]; auto.
  - intros (before & B & after & -> & HB & Hafter).
    change (B :: after) with ([B] ++ after).
    rewrite !last_match_app, (last_match_none _ _ Hafter), last_match_single, HB.
    reflexivity.
Qed.

Lemma last_match_none_iff t (spans : list (span Region Confidence)) :
  last_match t spans = None <->
  forall sp, In sp spans -> extract_parameter (text_of sp) t = None.
Proof.
  split; [|apply last_match_none].
  induction spans as [|x spans IH] using rev_ind; [intros _ sp []|].
  rewrite last_match_app, last_match_single.
  destruct (extract_parameter (text_of x) t) as [r|] eqn:E; [discriminate|].
  intros H sp Hin. apply in_app_or in Hin.
  destruct Hin as [Hin|[<-|[]]]; auto.
Qed.

Lemma nodup_detect (spans : list (span Region Confidence)) params :
  NoDup (Dict.keys (detect_parameters spans params)).
Proof.
  unfold detect_parameters.
  assert (G : forall d, NoDup (Dict.keys d) ->
    NoDup (Dict.keys (fold_left (fun parameters (sp : span Region Confidence) =>
             try_types (text_of sp) params parameters) spans d))).
  { induction spans as [|sp spans IH]; intros d H; simpl; [exact H|].
    apply IH, nodup_try_types, H. }
  apply G. constructor.
Qed.

End Walk.

End DictFacts.

Import DictFacts.

(** X1: the value under a type after the walk.  [detect_parameters]
    holds [v] under [t] exactly when [t] was asked for and some span gives
    [v] for [t] while no span after it gives anything for [t]. *)
Theorem X1_detect_value_iff (Region Confidence : Type)
    (spans : list (span Region Confidence)) (params : list str) (t v : str) :
  Dict.get (detect_parameters spans params) t = Some v <->
  In t params
  /\ exists before B after,
       spans = before ++ B :: after
       /\ extract_parameter (text_of B) t = Some v
       /\ forall sp, In sp after -> extract_parameter (text_of sp) t = None.
Proof.
  rewrite detect_parameters_get, <- last_match_some.
  destruct (existsb (PyStr.eqb t) params) eqn:E.
  - apply existsb_exists in E. destruct E as (t' & Hin & E).
    apply StrFacts.eqb_eq in E. subst t'. tauto.
  - split; [discriminate|]. intros [Hin _].
    rewrite (asked_for _ _ Hin) in E. discriminate.
Qed.

(** X2: the keys of the result.  No key appears twice, and a string is
    a key exactly when it was asked for and some span gives a result for
    it. *)
Theorem X2_detect_keys (Region Confidence : Type)
    (spans : list (span Region Confidence)) (params : list str) :
  NoDup (Dict.keys (detect_parameters spans params))
  /\ forall t,
       In t (Dict.keys (detect_parameters spans params)) <->
       In t params
       /\ exists sp, In sp spans /\ extract_parameter (text_of sp) t <> None.
Proof.
  split; [apply nodup_detect|]. intros t.
  rewrite in_keys_get, detect_parameters_get.
  destruct (existsb (PyStr.eqb t) params) eqn:E.
  - apply existsb_exists in E. destruct E as (t' & Hin & E).
    apply StrFacts.eqb_eq in E. subst t'.
    split.
    + intros H. split; [exact Hin|].
      destruct (last_match t spans) as [v|] eqn:El; [|congruence].
      apply last_match_some in El.
      destruct El as (before & B & after & -> & HB & _).
      exists B. split; [apply in_elt | congruence].
    + intros (_ & sp & Hsp & Hx) Hnone.
      rewrite last_match_none_iff in Hnone. exact (Hx (Hnone sp Hsp)).
  - split; [congruence|]. intros [Hin _].
    rewrite (asked_for _ _ Hin) in E. discriminate.
Qed.

(** X3: a span whose text gives nothing for any requested type can be
    taken out of the stream, wherever it stands, without changing the
    result. *)
Theorem X3_detect_skips_non_matching (Region Confidence : Type)
    (before after : list (span Region Confidence))
    (sp : span Region Confidence) (params : list str) :
  (forall t, In t params -> extract_parameter (text_of sp) t = None) ->
  detect_parameters (before ++ sp :: after) params
  = detect_parameters (before ++ after) params.
Proof.
  intros H. unfold detect_parameters.
  rewrite !fold_left_app. simpl.
  rewrite (@try_types_no_match _ _ _ H). reflexivity.
Qed.

Lemma X3_detect_skips_non_matching_witness :
  detect_parameters ([line "5 kg"] ++ line "other text" :: [line "7 kg"])
                    [L "weight"; L "height"]
  = detect_parameters ([line "5 kg"] ++ [line "7 kg"])
                      [L "weight"; L "height"].
Proof.
  apply (@X3_detect_skips_non_matching unit unit [line "5 kg"] [line "7 kg"]
           (line "other text") [L "weight"; L "height"]).
  intros t [<-|[<-|[]]]; vm_compute; reflexivity.
Defined.

(** The walk for one requested type. *)
Lemma detect_one_type (Region Confidence : Type)
    (spans : list (span Region Confidence)) (t : str) :
  detect_parameters spans [t]
  = match last_match t spans with
    | Some v => [(t, v)]
    | None => []
    end.
Proof.
  set (dict_of := fun acc : option str =>
                    match acc with Some v => [(t, v)] | None => [] end).
  assert (Hstep : forall text acc,
            try_types text [t] (dict_of acc) = dict_of (update text t acc)).
  { intros text acc. unfold try_types, update. simpl.
    destruct (extract_parameter text t) as [r|]; [|reflexivity].
    destruct (truthy r); [|reflexivity].
    destruct acc as [v|]; simpl; [rewrite StrFacts.eqb_refl|]; reflexivity. }
  assert (G : forall acc,
    fold_left (fun parameters (sp : span Region Confidence) =>
                 try_types (text_of sp) [t] parameters) spans (dict_of acc)
    = dict_of (fold_left (fun acc sp => update (text_of sp) t acc) spans acc)).
  { induction spans as [|sp spans IH]; intros acc; cbn [fold_left];
      [reflexivity|].
    rewrite Hstep. apply IH. }
  exact (G None).
Qed.

(** X4: asked for one type, the walk returns the one-entry dictionary
    with the last match under that type, or the empty dictionary when no
    span matches. *)
Theorem X4_detect_single_type (Region Confidence : Type)
    (spans : list (span Region Confidence)) (t : str) :
  detect_parameters spans [t]
  = match last_match t spans with
    | Some v => [(t, v)]
    | None => []
    end.
Proof. apply detect_one_type. Qed.

(** ** The digits of a result *)

Module DigitFacts.

Import ReFacts Shape StrFacts ExtractFacts CaseFacts.

Lemma number_body_starts_digit :
  starts isdigit (Cat (Plus (Class isdigit))
                      (Opt (Cat (Chr ".") (Plus (Class isdigit))))).
Proof.
  cbv [Plus]. apply starts_cat, starts_cat, starts_class. auto.
Qed.

(** The number group begins and ends with a digit. *)
Lemma number_digits n s i c j c' :
  matches s (number n) i c j c' ->
  c' = set n (i, j) c
  /\ i < j /\ char_at s i isdigit /\ char_at s (pred j) isdigit.
Proof.
  intros H. destruct (number_shape H) as (Hc & _ & Hlast).
  unfold number in H. apply inv_group in H. destruct H as (c1 & H & _).
  destruct (number_body_starts_digit H) as [Hlt Hfirst]. auto.
Qed.

Ltac digit_pieces :=
  repeat match goal with
  | H : matches _ (number _) _ _ _ _ |- _ =>
      apply number_digits in H; destruct H as (-> & ? & ? & ?)
  | H : matches _ (length_unit _) _ _ _ _ |- _ => unfold length_unit in H
  | H : matches _ (Group _ _) _ _ _ _ |- _ =>
      apply group_shape in H;
      [ destruct H as (-> & ?) | reflexivity | solve [edges] | solve [edges] ]
  | H : matches _ _ _ _ _ _ |- _ =>
      apply keeps in H; [ subst | reflexivity ]
  end.

(** Wherever a pattern of the table matches, group 1 is a span that
    begins and ends with a digit. *)
Lemma table_group_1 p s i j c' :
  p = voltage_pattern \/ In p two_group_patterns ->
  matches s p i [] j c' ->
  exists i1 j1, get 1 c' = Some (i1, j1)
                /\ i1 < j1 /\ char_at s i1 isdigit
                /\ char_at s (pred j1) isdigit.
Proof.
  intros Hp H. simpl in Hp.
  repeat (destruct Hp as [Hp|Hp]; [try symmetry in Hp|]);
    try contradiction; subst p;
    match type of H with
    | matches _ ?pat _ _ _ _ => unfold pat in H
    end;
    chain; digit_pieces; eexists _, _; (split; [reflexivity|auto]).
Qed.

Lemma lower_digit a : isdigit (lower_char a) = true -> isdigit a = true.
Proof. destruct a as [[] [] [] [] [] [] [] []]; vm_compute; congruence. Qed.

(** A result of the extractor begins with a digit of the lowered text. *)
Lemma extract_head text t r :
  extract_parameter text t = Some r ->
  exists d rest, r = d :: rest /\ isdigit d = true /\ In d (lower text).
Proof.
  rewrite extract_parameter_eq.
  destruct (Dict.get parameter_patterns (lower t)) as [p|] eqn:E;
    [|discriminate].
  apply table_patterns in E. intros H.
  destruct (search p (lower text)) as [mt|] eqn:Es;
    [|unfold extract_with in H; rewrite Es in H; discriminate].
  assert (Hv : exists v w, group mt 1 = Some v /\ r = v ++ w).
  { destruct E as [->|Hin].
    - destruct (extract_with_voltage _ Es) as (v & Hg & _ & E).
      rewrite E in H. injection H as <-. exists v, []. rewrite app_nil_r. auto.
    - destruct (extract_with_two _ Hin Es) as (v & u & Hg & _ & _ & _ & E).
      rewrite E in H. injection H as <-. eauto. }
  destruct Hv as (v & w & Hg & ->).
  apply search_sound in Es. destruct Es as (i & j & c' & Hm & ->).
  destruct (table_group_1 E Hm) as (i1 & j1 & Hget & Hlt & (d & Hd & Ed) & _).
  unfold group in Hg. simpl in Hg. destruct (Nat.eqb_spec 1 0); [lia|].
  simpl in Hget. rewrite Hget in Hg. injection Hg as <-.
  destruct (@slice_head (lower text) i1 j1 d Hlt Hd) as [rest Hrest].
  exists d, (rest ++ w). rewrite Hrest. repeat split; auto.
  eapply nth_error_In; eassumption.
Qed.

(** A result of the extractor is left alone by [strip]. *)
Lemma extract_stripped text t r :
  extract_parameter text t = Some r -> strip r = r.
Proof.
  rewrite extract_parameter_eq.
  destruct (Dict.get parameter_patterns (lower t)) as [p|] eqn:E;
    [|discriminate].
  apply table_patterns in E. intros H.
  destruct (search p (lower text)) as [mt|] eqn:Es;
    [|unfold extract_with in H; rewrite Es in H; discriminate].
  destruct E as [->|Hin].
  - destruct (extract_with_voltage _ Es) as (v & _ & Hv & E).
    rewrite E in H. injection H as <-. apply strip_trimmed, Hv.
  - destruct (extract_with_two _ Hin Es) as (v & u & _ & _ & Hv & Hu & E).
    rewrite E in H. injection H as <-. apply strip_join; assumption.
Qed.

End DigitFacts.

Import DigitFacts.

(** X5: every result of the extractor is a non-empty string that begins
    with a digit, that [strip] leaves alone, and that differs from the
    failure sentinel of the driver. *)
Theorem X5_extract_result_shape (text t r : str) :
  extract_parameter text t = Some r ->
  (exists d rest, r = d :: rest /\ isdigit d = true)
  /\ strip r = r
  /\ r <> no_result.
Proof.
  intros H. split; [|split].
  - destruct (extract_head _ _ H) as (d & rest & -> & Hd & _). eauto.
  - exact (extract_stripped _ _ H).
  - destruct (extract_head _ _ H) as (d & rest & -> & Hd & _).
    intros E. injection E as -> _. discriminate Hd.
Qed.

Lemma X5_extract_result_shape_witness :
  (exists d rest, L "2.5 kg" = d :: rest /\ isdigit d = true)
  /\ strip (L "2.5 kg") = L "2.5 kg"
  /\ L "2.5 kg" <> no_result.
Proof.
  apply (@X5_extract_result_shape (L "package weight 2.5kg net") (L "weight")
           (L "2.5 kg")).
  vm_compute. reflexivity.
Defined.

(** X6: a text without a digit gives no result, whatever the type. *)
Theorem X6_extract_needs_digit (text t : str) :
  Forall (fun a => isdigit a = false) text ->
  extract_parameter text t = None.
Proof.
  intros H. destruct (extract_parameter text t) as [r|] eqn:E; [|reflexivity].
  destruct (extract_head _ _ E) as (d & rest & _ & Hd & Hin).
  unfold lower in Hin. apply in_map_iff in Hin.
  destruct Hin as (a & <- & Ha).
  rewrite Forall_forall in H. apply lower_digit in Hd.
  rewrite (H a Ha) in Hd. discriminate.
Qed.

Lemma X6_extract_needs_digit_witness :
  extract_parameter (L "net weight: five kg") (L "weight") = None.
Proof.
  apply (@X6_extract_needs_digit (L "net weight: five kg") (L "weight")).
  repeat constructor.
Defined.

(** X7: the type name is looked up without regard to letter case: two
    names that differ only in the case of their letters give the same
    result on every text. *)
Theorem X7_type_name_case (text t t' : str) :
  case_variant t t' ->
  extract_parameter text t = extract_parameter text t'.
Proof.
  intros H. rewrite !ExtractFacts.extract_parameter_eq.
  rewrite (CaseFacts.case_variant_lower H). reflexivity.
Qed.

Lemma X7_type_name_case_witness :
  extract_parameter (L "5 kg") (L "weight")
  = extract_parameter (L "5 kg") (L "Weight").
Proof.
  apply (@X7_type_name_case (L "5 kg") (L "weight") (L "Weight")).
  repeat (apply Forall2_cons; [first [left; reflexivity
                                     | right; right; reflexivity]|]).
  apply Forall2_nil.
Defined.

(** ** The words a pattern matches *)

Module LangFacts.

Import ReFacts Shape StrFacts ExtractFacts.

Lemma slice_nil (s : str) i : slice s i i = [].
Proof. unfold slice. rewrite Nat.sub_diag. reflexivity. Qed.

Lemma slice_one (s : str) i a :
  nth_error s i = Some a -> slice s i (S i) = [a].
Proof.
  intros H. apply nth_error_split in H. destruct H as (l1 & l2 & -> & <-).
  unfold slice. rewrite skipn_app, Nat.sub_diag, skipn_all.
  replace (S (List.length l1) - List.length l1) with 1 by lia. reflexivity.
Qed.

Lemma firstn_plus (A : Type) (l : list A) a b :
  firstn (a + b) l = firstn a l ++ firstn b (skipn a l).
Proof.
  revert l. induction a as [|a IH]; intros l; simpl; [reflexivity|].
  destruct l as [|x l]; simpl.
  - rewrite firstn_nil. reflexivity.
  - rewrite IH. reflexivity.
Qed.

(** A slice is its two halves. *)
Lemma slice_cat (s : str) i j l :
  i <= j -> j <= l -> slice s i l = slice s i j ++ slice s j l.
Proof.
  intros Hij Hjl. unfold slice.
  replace (l - i) with ((j - i) + (l - j)) by lia.
  rewrite firstn_plus, skipn_skipn.
  replace (j - i + i) with j by lia. reflexivity.
Qed.

(** What a match spans is a word of the pattern. *)
Theorem matches_lang s r i c j c' :
  matches s r i c j c' -> lang r (slice s i j).
Proof.
  induction 1; simpl.
  - exists a. split; [apply slice_one|]; assumption.
  - apply slice_nil.
  - exists (slice s i j), (slice s j l).
    split; [|split; assumption].
    apply slice_cat; eapply matches_le; eassumption.
  - left. assumption.
  - right. assumption.
  - exists []. split; [apply slice_nil | constructor].
  - destruct IHmatches2 as (pieces & E & Hp).
    exists (slice s i j :: pieces). split; [|constructor; assumption].
    simpl. rewrite <- E. apply slice_cat; [lia|].
    eapply matches_le; eassumption.
  - assumption.
  - apply slice_nil.
Qed.

Lemma lang_lit w v : lang (Lit w) v -> v = w.
Proof.
  revert v. induction w as [|a w IH]; intros v; [exact (fun H => H)|].
  destruct w as [|b w].
  - intros (x & -> & Hx). apply Ascii.eqb_eq in Hx. subst. reflexivity.
  - intros (w1 & w2 & -> & (x & -> & Hx) & H2).
    apply Ascii.eqb_eq in Hx. subst x. rewrite (IH _ H2). reflexivity.
Qed.

Lemma lang_run p w :
  lang (Star (Class p)) w -> Forall (fun a => p a = true) w.
Proof.
  intros (pieces & -> & H).
  induction H as [|x pieces (a & -> & Ha) _ IH]; simpl; constructor; auto.
Qed.

Lemma lang_digits w : lang (Plus (Class isdigit)) w -> digits w.
Proof.
  intros (w1 & w2 & -> & (a & -> & Ha) & H2). apply lang_run in H2.
  split; [discriminate | constructor; assumption].
Qed.

(** The number group matches numerals only. *)
Lemma lang_number n w : lang (number n) w -> numeral w.
Proof.
  intros (w1 & w2 & -> & H1 & H2). apply lang_digits in H1.
  exists w1. split; [assumption|].
  destruct H2 as [(x & w3 & -> & (a & -> & Ha) & H3)| ->].
  - right. apply lang_digits in H3. apply Ascii.eqb_eq in Ha. subst a.
    exists w3. split; [assumption | reflexivity].
  - left. apply app_nil_r.
Qed.

(** Take a word of a unit group apart down to its letters. *)
Ltac words :=
  repeat match goal with
  | H : lang (Lit _) _ |- _ => apply lang_lit in H; subst
  | H : lang (Or _ _) _ |- _ => destruct H as [H|H]
  | H : lang (Opt _) _ |- _ => destruct H as [H|H]
  | H : lang (Cat _ _) _ |- _ => destruct H as (? & ? & -> & ? & ?)
  | H : lang Empty _ |- _ => simpl in H; subst
  | H : lang (Chr _) _ |- _ =>
      destruct H as (? & -> & H); apply Ascii.eqb_eq in H; subst
  end.

Lemma weight_units u :
  lang (Or (Lit (L "g")) (Or (Lit (L "kg"))
       (Or (Cat (Lit (L "lb")) (Opt (Chr "s")))
       (Or (Lit (L "oz")) (Lit (L "mg")))))) u ->
  In u [L "g"; L "kg"; L "lb"; L "lbs"; L "oz"; L "mg"].
Proof. intros H. words; simpl; tauto. Qed.

Lemma length_units u :
  lang (Or (Lit (L "cm")) (Or (Lit (L "m")) (Or (Lit (L "inch"))
       (Or (Lit (L "ft")) (Lit (L "mm")))))) u ->
  In u [L "cm"; L "m"; L "inch"; L "ft"; L "mm"].
Proof. intros H. words; simpl; tauto. Qed.

Lemma volume_units u :
  lang (Or (Lit (L "ml")) (Or (Lit (L "l"))
       (Or (Cat (Lit (L "fl")) (Cat (Opt ws) (Lit (L "oz"))))
       (Lit (L "gal"))))) u ->
  In u [L "ml"; L "l"; L "floz"; L "gal"]
  \/ exists a, isspace a = true /\ u = L "fl" ++ [a] ++ L "oz".
Proof.
  intros H. words; try (left; simpl; tauto).
  destruct H as (a & -> & Ha). right. exists a. auto.
Qed.

Lemma wattage_units u :
  lang (Or (Lit (L "w")) (Or (Lit (L "watt")) (Lit (L "mw")))) u ->
  In u [L "w"; L "watt"; L "mw"].
Proof. intros H. words; simpl; tauto. Qed.

Lemma max_weight_units u :
  lang (Or (Lit (L "kg")) (Cat (Lit (L "lb")) (Opt (Chr "s")))) u ->
  In u [L "kg"; L "lb"; L "lbs"].
Proof. intros H. words; simpl; tauto. Qed.

End LangFacts.

(** ** Numerals and units in the results *)

Module UnitFacts.

Import ReFacts Shape StrFacts ExtractFacts LangFacts.

Lemma get_in (V : Type) (d : Dict.dict V) k v :
  Dict.get d k = Some v -> In (k, v) d.
Proof.
  induction d as [|[k' v'] d IH]; simpl; [discriminate|].
  destruct (PyStr.eqb k k') eqn:E; [|auto].
  apply eqb_eq in E. subst k'. intros [= ->]. auto.
Qed.

Lemma number_numeral n s i c j c' :
  matches s (number n) i c j c' ->
  c' = set n (i, j) c /\ numeral (slice s i j).
Proof.
  intros H. split; [apply (number_shape H)|].
  apply matches_lang in H. apply (lang_number H).
Qed.

Lemma group_lang n r s i c j c' :
  ngroups r = 0 -> matches s (Group n r) i c j c' ->
  c' = set n (i, j) c /\ lang r (slice s i j).
Proof.
  intros Hn H. apply inv_group in H. destruct H as (c1 & H & ->).
  rewrite (keeps H Hn). split; [reflexivity|]. exact (matches_lang H).
Qed.

Ltac word_pieces :=
  repeat match goal with
  | H : matches _ (number _) _ _ _ _ |- _ =>
      apply number_numeral in H; destruct H as (-> & ?)
  | H : matches _ (length_unit _) _ _ _ _ |- _ => unfold length_unit in H
  | H : matches _ (Group _ _) _ _ _ _ |- _ =>
      apply group_lang in H; [ destruct H as (-> & ?) | reflexivity ]
  | H : matches _ _ _ _ _ _ |- _ =>
      apply keeps in H; [ subst | reflexivity ]
  end.

Ltac unit_word :=
  match goal with
  | H : lang _ _ |- is_unit _ _ =>
      first
        [ left; eexists; split; [reflexivity|];
          first [ exact (weight_units H) | exact (length_units H)
                | exact (wattage_units H) | exact (max_weight_units H) ]
        | destruct (volume_units H) as [Hw|Hw];
          [ left; eexists; split; [reflexivity | exact Hw]
          | right; split; [reflexivity | exact Hw] ] ]
  end.

(** Wherever the pattern stored under [k] matches, group 1 spans a
    numeral and, for every type but the voltage, group 2 spans a unit of
    the type. *)
Lemma table_words k p s i j c' :
  In (k, p) parameter_patterns ->
  matches s p i [] j c' ->
  exists i1 j1,
    c' = [(1, (i1, j1))] /\ k = L "voltage" /\ numeral (slice s i1 j1)
    \/ exists i2 j2,
         c' = [(2, (i2, j2)); (1, (i1, j1))]
         /\ numeral (slice s i1 j1) /\ is_unit k (slice s i2 j2).
Proof.
  intros Hp H. simpl in Hp.
  destruct Hp as [Hp|Hp];
    [ injection Hp as <- <-; unfold voltage_pattern in H; chain; word_pieces;
      eexists _, _; left; repeat split; assumption |].
  repeat (destruct Hp as [Hp|Hp];
    [ injection Hp as <- <-;
      match type of H with
      | matches _ ?pat _ _ _ _ => unfold pat in H
      end;
      chain; word_pieces;
      eexists _, _; right; eexists _, _;
      (split; [reflexivity | split; [assumption | unit_word]]) |]).
  contradiction.
Qed.

End UnitFacts.

Import UnitFacts.

(** The shape of every result, by type. *)
Lemma result_words (text t r : str) :
  extract_parameter text t = Some r ->
  (lower t = L "voltage" /\ numeral r)
  \/ exists v u, r = v ++ L " " ++ u /\ numeral v /\ is_unit (lower t) u.
Proof.
  rewrite ExtractFacts.extract_parameter_eq.
  destruct (Dict.get parameter_patterns (lower t)) as [p|] eqn:E;
    [|discriminate].
  intros H.
  destruct (search p (lower text)) as [mt|] eqn:Es;
    [|unfold extract_with in H; rewrite Es in H; discriminate].
  pose proof (ReFacts.search_sound _ _ Es) as (i & j & c' & Hm & ->).
  destruct (table_words (get_in _ _ E) Hm)
    as (i1 & j1 & [(-> & Hk & Hn)|(i2 & j2 & -> & Hn & Hu)]).
  - left. split; [exact Hk|].
    destruct (ExtractFacts.table_patterns _ E) as [->|Hin].
    + destruct (ExtractFacts.extract_with_voltage _ Es) as (v & Hg & _ & Ev).
      rewrite Ev in H. injection H as <-.
      injection Hg as <-. exact Hn.
    + exfalso.
      destruct (ExtractFacts.extract_with_two _ Hin Es)
        as (v & u & _ & Hg & _). discriminate Hg.
  - right.
    destruct (ExtractFacts.table_patterns _ E) as [->|Hin].
    + exfalso. apply Shape.voltage_shape in Hm.
      destruct Hm as (? & ? & Hc & _). discriminate Hc.
    + destruct (ExtractFacts.extract_with_two _ Hin Es)
        as (v & u & Hg1 & Hg2 & _ & _ & Ev).
      rewrite Ev in H. injection H as <-.
      injection Hg1 as <-. injection Hg2 as <-.
      exists (slice (lower text) i1 j1), (slice (lower text) i2 j2). auto.
Qed.

(** X8: the vocabulary of the results is closed.  A voltage result is a
    numeral (digits, optionally a point and digits); every other result is
    a numeral, one blank, and a unit of the requested type: one of the
    words of the type's unit group, as the text spelt it in lower case. *)
Theorem X8_result_vocabulary (text t r : str) :
  extract_parameter text t = Some r ->
  (lower t = L "voltage" /\ numeral r)
  \/ exists v u, r = v ++ L " " ++ u /\ numeral v /\ is_unit (lower t) u.
Proof. apply result_words. Qed.

Lemma X8_result_vocabulary_witness :
  (lower (L "Weight") = L "voltage" /\ numeral (L "12.5 oz"))
  \/ exists v u, L "12.5 oz" = v ++ L " " ++ u
                 /\ numeral v /\ is_unit (lower (L "Weight")) u.
Proof.
  apply (@X8_result_vocabulary (L "Net Wt 12.5 OZ") (L "Weight") (L "12.5 oz")).
  vm_compute. reflexivity.
Defined.

(** ** The matcher finds every match *)

Module Complete.

Import ReFacts Shape.

Section Complete.

Variable s : str.

(** A match that consumes something ends inside the subject. *)
Lemma matches_bound r i c j c' :
  matches s r i c j c' -> i < j -> j <= List.length s.
Proof.
  induction 1; intros Hlt; try lia.
  assert (i < List.length s) by (apply nth_error_Some; congruence). lia.
Qed.

(** Completeness: when the pattern has a match on which the continuation
    gives an answer, the matcher gives an answer. *)
Theorem m_complete r i c j c' :
  matches s r i c j c' ->
  forall k res, k j c' = Some res -> exists res', m s r i c k = Some res'.
Proof.
  induction 1; intros k res Hk; cbn [m].
  - rewrite H, H0. eauto.
  - eauto.
  - destruct (IHmatches2 _ _ Hk) as [res2 H2].
    exact (IHmatches1 (fun j c' => m s r2 j c' k) _ H2).
  - destruct (IHmatches _ _ Hk) as [res1 ->]. eauto.
  - destruct (m s r1 i c k); [eauto | exact (IHmatches _ _ Hk)].
  - destruct (List.length s - i); cbn [star_loop]; [eauto|].
    destruct (m s r i c _); eauto.
  - pose proof (matches_bound H H0) as Hb.
    destruct (List.length s - i) as [|fuel] eqn:Ef; [lia|].
    cbn [star_loop].
    destruct (IHmatches2 _ _ Hk) as [res2 H2]. cbn [m] in H2.
    rewrite (@star_fuel_enough s r k (List.length s - j) fuel j c1) in H2
      by lia.
    destruct (IHmatches1
                (fun j c' =>
                   if i <? j then star_loop (m s r) k fuel j c' else None)
                res2) as [res1 ->]; [|eauto].
    apply Nat.ltb_lt in H0. rewrite H0. exact H2.
  - exact (IHmatches (fun j c' => k j (set n (i, j) c')) _ Hk).
  - rewrite H. eauto.
Qed.

(** When the pattern matches at the start of the subject, the search
    returns a match that begins there. *)
Lemma search_at_start r j c' :
  matches s r 0 [] j c' ->
  exists j' c'', matches s r 0 [] j' c''
                 /\ search r s = Some (mkMatch s r (set 0 (0, j') c'')).
Proof.
  intros H.
  destruct (m_complete H (fun j c => Some (set 0 (0, j) c)) eq_refl)
    as [res Hres].
  destruct (m_sound _ _ _ _ _ Hres) as (j' & c'' & Hm & E).
  injection E as <-. exists j', c''. split; [exact Hm|].
  unfold search. destruct (List.length s); cbn [search_from];
    rewrite Hres; reflexivity.
Qed.

End Complete.

End Complete.

(** ** A number, blanks and a unit *)

Module Exact.

Import ReFacts Shape StrFacts LangFacts UnitFacts DigitFacts CaseFacts Complete.

Lemma plain_no_group r : plain r = true -> ngroups r = 0.
Proof.
  induction r; simpl; intros H; try discriminate; try reflexivity;
    try (apply andb_true_iff in H; destruct H as [H1 H2];
         rewrite IHr1, IHr2 by assumption; reflexivity).
  auto.
Qed.

(** A word of a plain pattern is matched wherever it stands. *)
Lemma lang_matches r :
  plain r = true ->
  forall x pre post c,
    lang r x ->
    matches (pre ++ x ++ post) r (List.length pre) c
            (List.length pre + List.length x) c.
Proof.
  induction r as [p| |r1 IH1 r2 IH2|r1 IH1 r2 IH2|r IH|n r IH|];
    simpl; intros Hp x pre post c Hx; try discriminate.
  - destruct Hx as (a & -> & Ha). simpl. rewrite Nat.add_1_r.
    econstructor; [|eassumption].
    rewrite nth_error_app2, Nat.sub_diag by lia. reflexivity.
  - subst x. simpl. rewrite Nat.add_0_r. constructor.
  - apply andb_true_iff in Hp. destruct Hp as [Hp1 Hp2].
    destruct Hx as (x1 & x2 & -> & H1 & H2).
    apply M_cat with (j := List.length pre + List.length x1) (c1 := c).
    + rewrite <- app_assoc. apply IH1; assumption.
    + rewrite length_app, Nat.add_assoc, <- length_app.
      replace (pre ++ (x1 ++ x2) ++ post) with ((pre ++ x1) ++ x2 ++ post)
        by (rewrite <- !app_assoc; reflexivity).
      apply IH2; assumption.
  - apply andb_true_iff in Hp. destruct Hp as [Hp1 Hp2].
    destruct Hx as [H1|H2]; [apply M_or_l | apply M_or_r]; auto.
  - destruct Hx as (pieces & -> & Hpieces).
    revert pre. induction Hpieces as [|x pieces Hx _ IHp]; intros pre; simpl.
    + rewrite Nat.add_0_r. constructor.
    + destruct x as [|a x].
      * apply IHp.
      * apply M_star_more
          with (j := List.length pre + List.length (a :: x)) (c1 := c).
        -- rewrite <- app_assoc. apply IH; assumption.
        -- simpl. lia.
        -- rewrite length_app, Nat.add_assoc, <- length_app.
           replace (pre ++ ((a :: x) ++ List.concat pieces) ++ post)
             with ((pre ++ a :: x) ++ List.concat pieces ++ post)
             by (rewrite <- !app_assoc; reflexivity).
           apply IHp.
Qed.

Lemma lang_lit_self w : lang (Lit w) w.
Proof.
  induction w as [|a w IH]; [reflexivity|].
  destruct w as [|b w].
  - exists a. split; [reflexivity | apply Ascii.eqb_refl].
  - exists [a], (b :: w). split; [reflexivity|]. split; [|exact IH].
    exists a. split; [reflexivity | apply Ascii.eqb_refl].
Qed.

Lemma run_lang (p : ascii -> bool) w :
  Forall (fun a => p a = true) w -> lang (Star (Class p)) w.
Proof.
  intros H. exists (map (fun a => [a]) w). split.
  - induction w as [|a w IH]; simpl; [reflexivity|].
    rewrite <- IH; [reflexivity | inversion H; assumption].
  - induction H; simpl; constructor; eauto.
Qed.

Lemma digits_lang d : digits d -> lang (Plus (Class isdigit)) d.
Proof.
  intros [Hne H]. destruct d as [|a d]; [congruence|].
  inversion H; subst. exists [a], d. split; [reflexivity|].
  split; [exists a; split; [reflexivity | assumption]
         | apply run_lang; assumption].
Qed.

(** Every numeral is a word of the number group. *)
Lemma numeral_lang v :
  numeral v ->
  lang (Cat (Plus (Class isdigit))
            (Opt (Cat (Chr ".") (Plus (Class isdigit))))) v.
Proof.
  intros (d1 & H1 & [->|(d2 & H2 & ->)]).
  - exists d1, []. rewrite app_nil_r. split; [reflexivity|].
    split; [apply digits_lang, H1 | right; reflexivity].
  - exists d1, (L "." ++ d2). split; [reflexivity|].
    split; [apply digits_lang, H1 | left].
    exists (L "."), d2. split; [reflexivity|].
    split; [|apply digits_lang, H2].
    exists "."%char. split; reflexivity.
Qed.

Lemma letter_classes a :
  isletter a = true ->
  isword a = true /\ isdigit a = false /\ isspace a = false
  /\ isupper a = false /\ a <> "."%char.
Proof.
  destruct a as [[] [] [] [] [] [] [] []]; vm_compute;
    intuition congruence.
Qed.

Lemma digit_classes a :
  isdigit a = true -> isspace a = false /\ isletter a = false.
Proof.
  destruct a as [[] [] [] [] [] [] [] []]; vm_compute;
    intuition congruence.
Qed.

Lemma space_classes a :
  isspace a = true ->
  isdigit a = false /\ isletter a = false /\ a <> "."%char.
Proof.
  destruct a as [[] [] [] [] [] [] [] []]; vm_compute;
    intuition congruence.
Qed.

(** The characters of a numeral are digits and points; it begins and
    ends with a digit. *)
Lemma numeral_chars v :
  numeral v ->
  v <> []
  /\ Forall (fun a => isdigit a = true \/ a = "."%char) v.
Proof.
  intros (d1 & [Hne1 H1] & [->|(d2 & [Hne2 H2] & ->)]).
  - split; [assumption|]. eapply Forall_impl; [|exact H1]. auto.
  - split; [destruct d1; [congruence | discriminate]|].
    apply Forall_app. split; [eapply Forall_impl; [|exact H1]; auto|].
    constructor; [right; reflexivity|].
    eapply Forall_impl; [|exact H2]. auto.
Qed.

Lemma nth_error_slice (s : str) i j q :
  q < j - i -> nth_error (slice s i j) q = nth_error s (i + q).
Proof.
  intros H. unfold slice.
  rewrite nth_error_firstn. destruct (Nat.ltb_spec q (j - i)); [|lia].
  apply nth_error_skipn.
Qed.

Section NumberUnit.

Variable units : regex.
Variable words : list str.

Hypothesis units_plain : plain units = true.
Hypothesis units_words : forall x, lang units x <-> In x words.
Hypothesis words_letters :
  forall x, In x words -> x <> [] /\ Forall (fun a => isletter a = true) x.

Variables v w u : str.

Hypothesis Hv : numeral v.
Hypothesis Hw : Forall (fun a => isspace a = true) w.
Hypothesis Hu : In u words.

Let s : str := v ++ w ++ u.
Let a : nat := List.length v.
Let b : nat := List.length v + List.length w.
Let e : nat := List.length v + List.length w + List.length u.

Lemma subject_length : List.length s = e.
Proof. unfold s, e. rewrite !length_app. lia. Qed.

(** What stands where in the subject. *)
Lemma subject_char q x :
  nth_error s q = Some x ->
  (q < a /\ (isdigit x = true \/ x = "."%char))
  \/ (a <= q < b /\ isspace x = true)
  \/ (b <= q < e /\ isletter x = true).
Proof.
  unfold s, a, b, e. intros H.
  destruct (numeral_chars Hv) as [_ Hvc].
  destruct (words_letters _ Hu) as [_ Huc].
  rewrite Forall_forall in Hvc, Hw, Huc.
  destruct (Nat.lt_ge_cases q (List.length v)) as [H1|H1].
  - rewrite nth_error_app1 in H by assumption.
    left. split; [assumption | eapply Hvc, nth_error_In; eassumption].
  - rewrite nth_error_app2 in H by assumption. right.
    destruct (Nat.lt_ge_cases (q - List.length v) (List.length w)) as [H2|H2].
    + rewrite nth_error_app1 in H by assumption.
      left. split; [lia | eapply Hw, nth_error_In; eassumption].
    + rewrite nth_error_app2 in H by assumption. right.
      assert (q - List.length v - List.length w < List.length u)
        by (apply nth_error_Some; congruence).
      split; [lia | eapply Huc, nth_error_In; eassumption].
Qed.

Lemma subject_letter q : b <= q < e -> char_at s q isletter.
Proof.
  intros Hq.
  destruct (nth_error s q) as [x|] eqn:E.
  - exists x. split; [exact E|].
    destruct (subject_char _ E) as [[? _]|[[? _]|[_ ?]]]; [lia | lia | assumption].
  - apply nth_error_None in E. rewrite subject_length in E. lia.
Qed.

(** The pattern matches the whole subject. *)
Lemma whole_match :
  matches s (number_unit units) 0 [] e [(2, (b, e)); (1, (0, a))].
Proof.
  unfold number_unit.
  apply M_cat with (j := a) (c1 := [(1, (0, a))]).
  { unfold number. apply (M_group 1).
    exact (@lang_matches
             (Cat (Plus (Class isdigit))
                  (Opt (Cat (Chr ".") (Plus (Class isdigit)))))
             eq_refl v [] (w ++ u) [] (numeral_lang Hv)). }
  apply M_cat with (j := b) (c1 := [(1, (0, a))]).
  { exact (@lang_matches (Star ws) eq_refl w v u _ (run_lang _ Hw)). }
  apply M_cat with (j := e) (c1 := [(2, (b, e)); (1, (0, a))]).
  { apply (M_group 2).
    pose proof (@lang_matches units units_plain u (v ++ w) [] [(1, (0, a))]
                  (proj2 (units_words u) Hu)) as H.
    rewrite app_nil_r, <- app_assoc, length_app in H. exact H. }
  apply M_boundary.
  destruct (words_letters _ Hu) as [Hne _].
  assert (He : 0 < List.length u) by (destruct u; [congruence | simpl; lia]).
  unfold at_boundary, word_at.
  destruct e as [|e'] eqn:Ee; [unfold e in Ee; lia|].
  destruct (subject_letter (q:=e')) as (x & -> & Hx);
    [unfold b, e in *; lia|].
  destruct (letter_classes _ Hx) as [-> _].
  assert (Hend : nth_error s (S e') = None)
    by (apply nth_error_None; rewrite subject_length; lia).
  rewrite Hend. reflexivity.
Qed.

(** Every match from the start of the subject captures the numeral and
    the unit. *)
Lemma start_match_captures j c' :
  matches s (number_unit units) 0 [] j c' ->
  c' = [(2, (b, e)); (1, (0, a))].
Proof.
  unfold number_unit. intros H.
  apply inv_cat in H. destruct H as (j1 & c1 & Hnum & H).
  apply inv_cat in H. destruct H as (j2 & c2 & Hws & H).
  apply inv_cat in H. destruct H as (j3 & c3 & Hunit & Hb).
  apply number_digits in Hnum. destruct Hnum as (-> & Hj1 & _ & Hlast).
  pose proof (matches_le Hws) as Hle12.
  pose proof (star_class_run Hws) as Hrun.
  apply keeps in Hws; [subst c2 | reflexivity].
  pose proof (matches_le Hunit) as Hle23.
  assert (Hb3 : j2 < j3 -> j3 <= e).
  { intros Hlt. rewrite <- subject_length.
    exact (matches_bound Hunit Hlt). }
  apply group_lang in Hunit; [|apply plain_no_group, units_plain].
  destruct Hunit as (-> & Hword). apply units_words in Hword.
  destruct (words_letters _ Hword) as [Hne Hletters].
  apply inv_boundary in Hb. destruct Hb as (-> & -> & Hbound).
  assert (Hlt23 : j2 < j3).
  { destruct (Nat.eq_dec j2 j3) as [<-|]; [|lia].
    rewrite slice_nil in Hne. congruence. }
  specialize (Hb3 Hlt23).
  assert (Hin : forall q, j2 <= q < j3 -> char_at s q isletter).
  { intros q Hq. rewrite Forall_forall in Hletters.
    destruct (nth_error s q) as [x|] eqn:E.
    - exists x. split; [exact E|]. apply Hletters.
      apply nth_error_In with (n := q - j2).
      rewrite nth_error_slice by lia.
      replace (j2 + (q - j2)) with q by lia. exact E.
    - apply nth_error_None in E. rewrite subject_length in E. lia. }
  assert (Hj2 : j2 = b).
  { destruct (Hin j2) as (x & Hx & Lx); [lia|].
    destruct (subject_char _ Hx) as [[_ [D|D]]|[[_ D]|[Hq _]]].
    - destruct (digit_classes _ D) as [_ D']. congruence.
    - subst x. discriminate Lx.
    - destruct (space_classes _ D) as (_ & D' & _). congruence.
    - destruct (Nat.eq_dec j2 b) as [|Hne2]; [assumption|]. exfalso.
      destruct (subject_letter (q:=pred j2)) as (y & Hy & Ly); [lia|].
      destruct (letter_classes _ Ly) as (_ & Ld & Ls & _).
      destruct (Nat.eq_dec j1 j2) as [<-|Hne12].
      + destruct Hlast as (y' & Hy' & Dy'). congruence.
      + destruct (Hrun (pred j2)) as (y' & Hy' & Sy'); [lia|].
        unfold ws in Sy'. congruence. }
  assert (Hj3 : j3 = e).
  { destruct (Nat.eq_dec j3 e) as [|Hne3]; [assumption|]. exfalso.
    destruct (Hin (pred j3)) as (x & Hx & Lx); [lia|].
    destruct (subject_letter (q:=j3)) as (y & Hy & Ly); [lia|].
    unfold at_boundary, word_at in Hbound.
    destruct j3 as [|j3']; [lia|]. simpl in Hx.
    rewrite Hx, Hy in Hbound.
    destruct (letter_classes _ Lx) as [Wx _].
    destruct (letter_classes _ Ly) as [Wy _].
    rewrite Wx, Wy in Hbound. discriminate. }
  assert (Hj1a : j1 = a).
  { destruct Hlast as (x & Hx & Dx).
    destruct (subject_char _ Hx) as [[Hq _]|[[_ D]|[_ D]]].
    - destruct (Nat.eq_dec j1 a) as [|Hne1]; [assumption|]. exfalso.
      destruct (Hrun j1) as (y & Hy & Sy); [unfold a, b in *; lia|].
      unfold ws in Sy.
      destruct (subject_char _ Hy) as [[_ [D|D]]|[[Hq' _]|[Hq' _]]];
        try (unfold a, b in *; lia).
      + destruct (digit_classes _ D). congruence.
      + destruct (space_classes _ Sy) as (_ & _ & N). congruence.
    - destruct (space_classes _ D). congruence.
    - destruct (digit_classes _ Dx). congruence. }
  subst. reflexivity.
Qed.

End NumberUnit.

Lemma all_nonspace_trimmed x :
  x <> [] -> Forall (fun a => isspace a = false) x -> trimmed x.
Proof.
  intros Hne H. split.
  - destruct x as [|a x]; [congruence|]. inversion H; subst. eauto.
  - destruct (exists_last Hne) as (y & b & ->).
    apply Forall_app in H. destruct H as [_ H]. inversion H; subst. eauto.
Qed.

Lemma numeral_trimmed v : numeral v -> trimmed v.
Proof.
  intros H. destruct (numeral_chars H) as [Hne Hc].
  apply all_nonspace_trimmed; [assumption|].
  eapply Forall_impl; [|exact Hc]. cbv beta. intros a [D| ->].
  - apply (digit_classes _ D).
  - reflexivity.
Qed.

Lemma letters_trimmed u :
  u <> [] -> Forall (fun a => isletter a = true) u -> trimmed u.
Proof.
  intros Hne H. apply all_nonspace_trimmed; [assumption|].
  eapply Forall_impl; [|exact H]. cbv beta. intros a La.
  apply (letter_classes _ La).
Qed.

(** On a lowered text made of a numeral, blanks and a unit word, a
    pattern of the number-unit shape gives the numeral, a blank, the
    unit. *)
Lemma extract_number_unit units words text v w u :
  plain units = true ->
  (forall x, lang units x <-> In x words) ->
  (forall x, In x words ->
             x <> [] /\ Forall (fun a => isletter a = true) x) ->
  numeral v -> Forall (fun a => isspace a = true) w -> In u words ->
  lower text = v ++ w ++ u ->
  extract_with (number_unit units) text = Some (v ++ L " " ++ u).
Proof.
  intros Hplain Hwords Hletters Hv Hw Hu Htext.
  pose proof (@whole_match units words Hplain Hwords Hletters v w u
                Hv Hw Hu) as Hm.
  apply search_at_start in Hm. destruct Hm as (j' & c'' & Hm & Hs).
  apply (@start_match_captures units words Hplain Hwords Hletters v w u
           Hv Hw Hu) in Hm.
  subst c''. unfold extract_with. rewrite Htext, Hs.
  assert (Hn : ngroups (number_unit units) = 2).
  { simpl. rewrite (plain_no_group _ Hplain). reflexivity. }
  unfold groups. cbn [pattern]. rewrite Hn.
  change (seq 1 2) with [1; 2]. cbn [map].
  unfold group. cbn [spans subject get set Nat.eqb].
  assert (E1 : slice (v ++ w ++ u) 0 (List.length v) = v).
  { unfold slice. rewrite Nat.sub_0_r. cbn [skipn].
    rewrite firstn_app, Nat.sub_diag, firstn_all. cbn [firstn].
    apply app_nil_r. }
  assert (E2 : slice (v ++ w ++ u) (List.length v + List.length w)
                     (List.length v + List.length w + List.length u) = u).
  { unfold slice. rewrite app_assoc, skipn_app, <- length_app.
    rewrite skipn_all, Nat.sub_diag. cbn [skipn app].
    replace (List.length (v ++ w) + List.length u - List.length (v ++ w))
      with (List.length u) by lia.
    apply firstn_all. }
  rewrite E1, E2. cbn [fmt].
  destruct (Hletters _ Hu) as [Hne Hl].
  rewrite (strip_join (numeral_trimmed Hv) (letters_trimmed Hne Hl)).
  reflexivity.
Qed.

Lemma weight_words x :
  lang weight_alternatives x
  <-> In x [L "g"; L "kg"; L "lb"; L "lbs"; L "oz"; L "mg"].
Proof.
  split; [apply weight_units|]. intros H. simpl in H.
  destruct H as [<-|[<-|[<-|[<-|[<-|[<-|[]]]]]]].
  - left. apply lang_lit_self.
  - right. left. apply lang_lit_self.
  - right. right. left. exists (L "lb"), [].
    split; [reflexivity|]. split; [apply lang_lit_self | right; reflexivity].
  - right. right. left. exists (L "lb"), (L "s").
    split; [reflexivity|]. split; [apply lang_lit_self | left].
    exists "s"%char. split; reflexivity.
  - right. right. right. left. apply lang_lit_self.
  - right. right. right. right. apply lang_lit_self.
Qed.

Lemma length_words x :
  lang length_alternatives x
  <-> In x [L "cm"; L "m"; L "inch"; L "ft"; L "mm"].
Proof.
  split; [apply length_units|]. intros H. simpl in H.
  destruct H as [<-|[<-|[<-|[<-|[<-|[]]]]]].
  - left. apply lang_lit_self.
  - right. left. apply lang_lit_self.
  - right. right. left. apply lang_lit_self.
  - right. right. right. left. apply lang_lit_self.
  - right. right. right. right. apply lang_lit_self.
Qed.

Lemma words_are_letters (words : list str) :
  forallb (fun x => negb (PyStr.eqb x []) && forallb isletter x) words = true ->
  forall x, In x words ->
            x <> [] /\ Forall (fun a => isletter a = true) x.
Proof.
  intros H x Hin. rewrite forallb_forall in H. specialize (H x Hin).
  apply andb_true_iff in H. destruct H as [H1 H2].
  split.
  - intros ->. discriminate H1.
  - apply Forall_forall. apply forallb_forall. exact H2.
Qed.

End Exact.

Import Exact.

(** A numeral, blanks and a unit word, for the weight and the height. *)
Lemma number_unit_text (text t v w u : str) (words : list str) :
  lower t = L "weight" \/ lower t = L "height" ->
  Dict.get unit_words (lower t) = Some words ->
  numeral v -> Forall (fun a => isspace a = true) w -> In u words ->
  lower text = v ++ w ++ u ->
  extract_parameter text t = Some (v ++ L " " ++ u).
Proof.
  intros Ht Hwords Hv Hw Hu Htext.
  rewrite ExtractFacts.extract_parameter_eq.
  destruct Ht as [Ht|Ht]; rewrite Ht in *; injection Hwords as <-.
  - change (Dict.get parameter_patterns (L "weight"))
      with (Some (number_unit weight_alternatives)).
    exact (@extract_number_unit weight_alternatives _ text v w u eq_refl
             weight_words
             (@words_are_letters
                [L "g"; L "kg"; L "lb"; L "lbs"; L "oz"; L "mg"] eq_refl)
             Hv Hw Hu Htext).
  - change (Dict.get parameter_patterns (L "height"))
      with (Some (number_unit length_alternatives)).
    exact (@extract_number_unit length_alternatives _ text v w u eq_refl
             length_words
             (@words_are_letters
                [L "cm"; L "m"; L "inch"; L "ft"; L "mm"] eq_refl)
             Hv Hw Hu Htext).
Qed.

(** ** Acquisition and the task of a row *)

Module TaskFacts.

Import StrFacts ExtractFacts DetectFacts DictFacts DigitFacts.

(** The last component of a path that ends in [/name]. *)
Lemma basename_after_slash prefix name :
  ~ In "/"%char name -> basename (prefix ++ "/"%char :: name) = name.
Proof.
  intros Hname.
  assert (Hno : existsb (Ascii.eqb "/") name = false).
  { destruct (existsb (Ascii.eqb "/") name) eqn:E; [|reflexivity].
    apply existsb_exists in E. destruct E as (a & Ha & E).
    apply Ascii.eqb_eq in E. subst a. contradiction. }
  induction prefix as [|a prefix IH]; simpl.
  - rewrite Hno. reflexivity.
  - rewrite existsb_app. simpl. rewrite Bool.orb_true_r. exact IH.
Qed.

Lemma basename_no_slash p : ~ In "/"%char (basename p).
Proof.
  induction p as [|a p IH]; simpl; [tauto|].
  destruct (existsb (Ascii.eqb "/") p) eqn:E; [exact IH|].
  assert (Hp : ~ In "/"%char p).
  { intros Hin. assert (existsb (Ascii.eqb "/") p = true); [|congruence].
    apply existsb_exists. exists "/"%char. split; [assumption | reflexivity]. }
  destruct (Ascii.eqb_spec a "/"); [exact Hp|].
  intros [Ha|Hin]; [congruence | exact (Hp Hin)].
Qed.

Lemma join_under_truthy dir name :
  dir <> [] ->
  truthy match rev dir with
         | [] => name
         | "/"%char :: _ => dir ++ name
         | _ => dir ++ L "/" ++ name
         end = true.
Proof.
  intros Hdir.
  assert (Hd : forall x, truthy (dir ++ x) = true)
    by (intros x; destruct dir; [congruence | reflexivity]).
  destruct (rev dir) as [|d r] eqn:E.
  - apply (f_equal (@rev ascii)) in E. rewrite rev_involutive in E.
    destruct (Hdir E).
  - destruct d as [[] [] [] [] [] [] [] []]; apply Hd.
Qed.

(** Under a directory that is named, the path is never the empty
    string. *)
Lemma path_join_truthy dir name :
  dir <> [] -> truthy (path_join dir name) = true.
Proof.
  intros Hdir. unfold path_join.
  destruct name as [|b name]; [apply join_under_truthy, Hdir|].
  destruct b as [[] [] [] [] [] [] [] []];
    first [reflexivity | apply join_under_truthy, Hdir].
Qed.

Section Task.

Variables Image Region Confidence : Type.
Variable sv : services Image Region Confidence.

Lemma download_image_some url dir path :
  download_image sv url dir = Some path ->
  path = path_join dir (basename url)
  /\ http_get sv url = Returns 200%N
  /\ write_file sv path = Returns tt.
Proof.
  unfold download_image.
  destruct (http_get sv url) as [status|]; [|discriminate].
  destruct (N.eqb_spec status 200) as [->|]; [|discriminate].
  destruct (write_file sv _) as [[]|] eqn:E; [|discriminate].
  intros [= <-]. auto.
Qed.

End Task.

End TaskFacts.

Import TaskFacts.

(** X10: an image is stored under the last component of its link
    alone: two links that end in the same file name are written to the
    same path, whatever comes before the name. *)
Theorem X10_same_name_same_file (Image Region Confidence : Type)
    (sv : services Image Region Confidence)
    (prefix1 prefix2 name dir path1 path2 : str) :
  ~ In "/"%char name ->
  download_image sv (prefix1 ++ "/"%char :: name) dir = Some path1 ->
  download_image sv (prefix2 ++ "/"%char :: name) dir = Some path2 ->
  path1 = path2 /\ path1 = path_join dir name.
Proof.
  intros Hname H1 H2.
  apply download_image_some in H1, H2.
  destruct H1 as (-> & _), H2 as (-> & _).
  rewrite !basename_after_slash by assumption. auto.
Qed.

Lemma X10_same_name_same_file_witness :
  L "/content/images/a.jpg" = L "/content/images/a.jpg"
  /\ L "/content/images/a.jpg" = path_join Scenario.image_dir (L "a.jpg").
Proof.
  apply (@X10_same_name_same_file str unit unit Scenario.shop
           (L "http://shop") (L "http://other/2024") (L "a.jpg")
           Scenario.image_dir (L "/content/images/a.jpg")
           (L "/content/images/a.jpg")).
  - simpl. intros H.
    repeat (destruct H as [H|H]; [discriminate H|]). exact H.
  - reflexivity.
  - reflexivity.
Defined.

(** ** Types that are strings *)

Module CellFacts.

(** On types that are strings the loops over cells are the loops of
    [detect_parameters]. *)
Lemma try_types_of_strings text params :
  forall d, try_types_of text (map Text params) d
            = Returns (try_types text params d).
Proof.
  unfold try_types. induction params as [|p params IH]; intros d; simpl.
  - reflexivity.
  - destruct (extract_parameter text p) as [r|]; [|apply IH].
    destruct (truthy r); apply IH.
Qed.

Lemma run_detect_strings (Region Confidence : Type)
    (spans : list (span Region Confidence)) params :
  run_detect_parameters spans (map Text params) []
  = Returns (detect_parameters spans params).
Proof.
  unfold detect_parameters. generalize (@nil (str * str)) as d.
  induction spans as [|sp spans IH]; intros d; simpl; [reflexivity|].
  rewrite try_types_of_strings. simpl. apply IH.
Qed.

(** The call of [process_image], with its one type. *)
Lemma run_detect_one (Region Confidence : Type)
    (spans : list (span Region Confidence)) (t : str) :
  run_detect_parameters spans [Text t] []
  = Returns (detect_parameters spans [t]).
Proof. exact (run_detect_strings spans [t]). Qed.

End CellFacts.

Import CellFacts.

(** X11: what a row's task returns.  When the download succeeds into
    a named directory and the image library, the preprocessing and the two
    engines return, the task returns the last match of the row's type over
    the fused stream, or the sentinel when no span matches; and it returns
    the sentinel only when no span matches. *)
Theorem X11_task_result (Image Region Confidence : Type)
    (sv : services Image Region Confidence)
    (url dir name : str) (mapping : Dict.dict str)
    (path : str) (image preprocessed : Image)
    (spans : list (span Region Confidence)) (text : str) :
  dir <> [] ->
  download_image sv url dir = Some path ->
  imread sv path = Returns (Some image) ->
  preprocess_image sv image = Returns preprocessed ->
  readtext sv preprocessed = Returns spans ->
  image_to_string sv preprocessed = Returns text ->
  let param_type := Dict.get_default mapping name name in
  let stream := detect_text spans text in
  process_image sv url dir name mapping
  = Returns match last_match param_type stream with
            | Some v => v
            | None => no_result
            end
  /\ (process_image sv url dir name mapping = Returns no_result <->
      forall sp, In sp stream ->
                 extract_parameter (text_of sp) param_type = None).
Proof.
  intros Hdir Hd Him Hpre Hread Hstr param_type stream.
  assert (E : process_image sv url dir name mapping
              = Returns match last_match param_type stream with
                        | Some v => v
                        | None => no_result
                        end).
  { unfold process_image. rewrite Hd.
    destruct (download_image_some _ _ _ Hd) as (Hp & _).
    rewrite Hp, (path_join_truthy _ Hdir), <- Hp.
    unfold predict, run_detect_text. cbn [resolve].
    rewrite Him. cbn [bind]. rewrite Hpre. cbn [bind].
    rewrite Hread. cbn [bind]. rewrite Hstr. cbn [bind].
    fold param_type stream.
    rewrite run_detect_one. cbn [bind]. fold param_type stream.
    rewrite detect_one_type.
    destruct (last_match param_type stream); reflexivity. }
  split; [exact E|]. rewrite E, <- last_match_none_iff.
  destruct (last_match param_type stream) as [v|] eqn:El.
  - split; [|discriminate]. intros [= ->]. exfalso.
    apply last_match_some in El.
    destruct El as (before & B & after & _ & HB & _).
    destruct (extract_head _ _ HB) as (d & rest & Hv & Hdig & _).
    injection Hv as <- _. discriminate Hdig.
  - tauto.
Qed.

Lemma X11_task_result_witness :
  Scenario.task Scenario.row_b = Returns (L "7 kg").
Proof.
  apply (proj1 (@X11_task_result str unit unit Scenario.shop
                  (L "http://shop/b.jpg") Scenario.image_dir (L "item_weight")
                  entity_mapping (L "/content/images/b.jpg")
                  (L "/content/images/b.jpg") (L "/content/images/b.jpg")
                  [] (L "net weight 7 kg")
                  ltac:(discriminate) eq_refl eq_refl eq_refl eq_refl eq_refl)).
Defined.

(** ** The chunk, whatever the order of completion *)

Module ChunkFacts.

Import BatchFacts.

Lemma picked_permutation vals completion :
  Permutation completion (seq 0 (List.length vals)) ->
  Permutation (picked vals completion) vals.
Proof.
  intros H. rewrite <- (picked_in_order vals) at 2. unfold picked.
  apply (Permutation_flat_map _ H).
Qed.

(** One raising task among those that complete makes the loop raise,
    with the exception of a task that raised. *)
Lemma collect_raises futures completion :
  forall acc,
    (exists i e, In i completion /\ nth_error futures i = Some (Raises e)) ->
    exists e', collect futures completion acc = Raises e'
               /\ In (Raises e') futures.
Proof.
  induction completion as [|i0 completion IH]; intros acc (i & e & Hin & Hi).
  - destruct Hin.
  - simpl. destruct (nth_error futures i0) as [[r|e0]|] eqn:E0; simpl.
    + apply IH. exists i, e. split; [|exact Hi].
      destruct Hin as [<-|Hin]; [congruence | exact Hin].
    + exists e0. split; [reflexivity | eapply nth_error_In; eassumption].
    + apply IH. exists i, e. split; [|exact Hi].
      destruct Hin as [<-|Hin]; [congruence | exact Hin].
Qed.

Lemma map_snd_combine (A B : Type) (l : list A) (l' : list B) :
  List.length l' = List.length l -> map snd (combine l l') = l'.
Proof.
  revert l'. induction l as [|a l IH]; intros [|b l'] H; simpl in *;
    try discriminate; try reflexivity.
  rewrite IH by lia. reflexivity.
Qed.

Lemma map_fst_combine (A B : Type) (l : list A) (l' : list B) :
  List.length l' = List.length l -> map fst (combine l l') = l.
Proof.
  revert l'. induction l as [|a l IH]; intros [|b l'] H; simpl in *;
    try discriminate; try reflexivity.
  rewrite IH by lia. reflexivity.
Qed.

End ChunkFacts.

Import ChunkFacts.

(** X12: when every task of a chunk returns, then for every order of
    completion the chunk comes back with its rows in order, one prediction
    per row, and the predictions are the tasks' values up to order. *)
Theorem X12_chunk_any_order (Image Region Confidence : Type)
    (sv : services Image Region Confidence)
    (chunk : list row) (dir : str) (mapping : Dict.dict str)
    (vals : list str) (completion : list nat) :
  map (fun r => process_image sv (image_link r) dir (entity_name r) mapping)
      chunk = map Returns vals ->
  Permutation completion (seq 0 (List.length chunk)) ->
  exists out,
    process_chunk sv chunk dir mapping completion = Returns out
    /\ map fst out = chunk
    /\ List.length out = List.length chunk
    /\ Permutation (map snd out) vals.
Proof.
  intros Htasks Hperm.
  assert (Hlen : List.length vals = List.length chunk).
  { rewrite <- (length_map Returns vals), <- Htasks. apply length_map. }
  destruct (BatchFacts.process_chunk_returns sv chunk dir mapping vals
              Htasks Hperm) as [E Hp].
  exists (combine chunk (picked vals completion)).
  split; [exact E|].
  rewrite map_fst_combine, map_snd_combine, length_combine, Hp by exact Hp.
  repeat split; [apply Nat.min_id|].
  apply picked_permutation. rewrite Hlen. exact Hperm.
Qed.

Lemma X12_chunk_any_order_witness :
  exists out,
    process_chunk Scenario.shop [Scenario.row_a; Scenario.row_b]
                  Scenario.image_dir entity_mapping [1; 0] = Returns out
    /\ map fst out = [Scenario.row_a; Scenario.row_b]
    /\ List.length out = 2
    /\ Permutation (map snd out) [L "5 kg"; L "7 kg"].
Proof.
  apply (@X12_chunk_any_order str unit unit Scenario.shop
           [Scenario.row_a; Scenario.row_b] Scenario.image_dir entity_mapping
           [L "5 kg"; L "7 kg"] [1; 0]).
  - vm_compute. reflexivity.
  - apply perm_swap.
Defined.

(** X13: when every task of a chunk returns and [as_completed] yields
    the futures in row order, each row gets the value of its own task. *)
Theorem X13_chunk_in_row_order (Image Region Confidence : Type)
    (sv : services Image Region Confidence)
    (chunk : list row) (dir : str) (mapping : Dict.dict str)
    (vals : list str) :
  map (fun r => process_image sv (image_link r) dir (entity_name r) mapping)
      chunk = map Returns vals ->
  process_chunk sv chunk dir mapping (seq 0 (List.length chunk))
  = Returns (combine chunk vals).
Proof. apply BatchFacts.process_chunk_in_order. Qed.

Lemma X13_chunk_in_row_order_witness :
  process_chunk Scenario.shop [Scenario.row_a; Scenario.row_b]
                Scenario.image_dir entity_mapping (seq 0 2)
  = Returns (combine [Scenario.row_a; Scenario.row_b] [L "5 kg"; L "7 kg"]).
Proof.
  apply (@X13_chunk_in_row_order str unit unit Scenario.shop
           [Scenario.row_a; Scenario.row_b] Scenario.image_dir entity_mapping
           [L "5 kg"; L "7 kg"]).
  vm_compute. reflexivity.
Defined.

(** X14: one row whose task raises makes [process_chunk] raise,
    whatever the order of completion; the exception is that of a task of
    the chunk, and no prediction of the chunk is returned. *)
Theorem X14_chunk_raises (Image Region Confidence : Type)
    (sv : services Image Region Confidence)
    (chunk : list row) (dir : str) (mapping : Dict.dict str)
    (completion : list nat) (r : row) (e : str) :
  Permutation completion (seq 0 (List.length chunk)) ->
  In r chunk ->
  process_image sv (image_link r) dir (entity_name r) mapping = Raises e ->
  exists e' r',
    process_chunk sv chunk dir mapping completion = Raises e'
    /\ In r' chunk
    /\ process_image sv (image_link r') dir (entity_name r') mapping
       = Raises e'.
Proof.
  intros Hperm Hin Hr.
  apply In_nth_error in Hin. destruct Hin as [i Hi].
  set (futures := map (fun r => process_image sv (image_link r) dir
                                (entity_name r) mapping) chunk).
  destruct (collect_raises futures completion []) as (e' & Hc & He').
  { exists i, e. split.
    - apply (Permutation_in _ (Permutation_sym Hperm)), in_seq.
      assert (i < List.length chunk) by (apply nth_error_Some; congruence).
      lia.
    - unfold futures. rewrite nth_error_map, Hi. simpl. rewrite Hr.
      reflexivity. }
  unfold futures in He'. apply in_map_iff in He'.
  destruct He' as (r' & Hr' & Hin').
  exists e', r'. split; [|auto].
  unfold process_chunk. fold futures. rewrite Hc. reflexivity.
Qed.

Lemma X14_chunk_raises_witness :
  exists e' r',
    process_chunk Scenario.shop [Scenario.row_a; Scenario.row_huge]
                  Scenario.image_dir entity_mapping [1; 0] = Raises e'
    /\ In r' [Scenario.row_a; Scenario.row_huge]
    /\ process_image Scenario.shop (image_link r') Scenario.image_dir
                     (entity_name r') entity_mapping = Raises e'.
Proof.
  apply (@X14_chunk_raises str unit unit Scenario.shop
           [Scenario.row_a; Scenario.row_huge] Scenario.image_dir
           entity_mapping [1; 0] Scenario.row_huge (L "tesseract failed")).
  - apply perm_swap.
  - right. left. reflexivity.
  - vm_compute. reflexivity.
Defined.

(** ** Chunks and the loop of [main] *)

Module MainFacts.

Import BatchFacts ChunkFacts.

Section Chunks.

Variable A : Type.

Lemma chunks_concat n : 0 < n ->
  forall fuel (rows : list A),
    List.length rows <= fuel -> List.concat (chunks_of fuel n rows) = rows.
Proof.
  intros Hn. induction fuel as [|fuel IH]; intros rows Hlen; simpl.
  - destruct rows; [reflexivity | simpl in Hlen; lia].
  - destruct rows as [|r rows]; [reflexivity|].
    cbn [List.concat]. rewrite IH; [apply firstn_skipn|].
    rewrite length_skipn. cbn [List.length] in *. lia.
Qed.

Lemma chunks_sizes n : 0 < n ->
  forall fuel (rows : list A),
    Forall (fun chunk => chunk <> [] /\ List.length chunk <= n)
           (chunks_of fuel n rows).
Proof.
  intros Hn. induction fuel as [|fuel IH]; intros rows; simpl.
  - constructor.
  - destruct rows as [|r rows]; constructor; [|apply IH].
    split; [|apply firstn_le_length].
    destruct n; [lia | discriminate].
Qed.

End Chunks.

(** Chunking goes through [map]. *)
Lemma chunks_map (A B C : Type) (f : A -> C) (g : B -> C) n :
  forall fuel (rows : list A) (vals : list B),
    map f rows = map g vals ->
    Forall2 (fun chunk piece => map f chunk = map g piece)
            (chunks_of fuel n rows) (chunks_of fuel n vals).
Proof.
  induction fuel as [|fuel IH]; intros rows vals H; simpl; [constructor|].
  destruct rows as [|r rows], vals as [|v vals]; try discriminate;
    constructor.
  - rewrite <- !firstn_map, H. reflexivity.
  - apply IH. rewrite <- !skipn_map, H. reflexivity.
Qed.

Section Loop.

Variables Image Region Confidence : Type.
Variable sv : services Image Region Confidence.
Variable completion : nat -> list nat.

Let task (r : row) : outcome str :=
  process_image sv (image_link r) Scenario.image_dir (entity_name r)
                entity_mapping.

(** When every task returns, the loop appends, chunk by chunk, the
    chunk's values in some order. *)
Lemma main_loop_returns chunks pieces :
  Forall2 (fun chunk piece => map task chunk = map Returns piece)
          chunks pieces ->
  forall k acc,
    (forall i chunk, nth_error chunks i = Some chunk ->
       Permutation (completion (k + i)) (seq 0 (List.length chunk))) ->
    exists outs,
      main_loop sv chunks k completion acc = Returns (acc ++ List.concat outs)
      /\ Forall2 (@Permutation str) outs pieces.
Proof.
  induction 1 as [|chunk piece chunks pieces Hc _ IH]; intros k acc Hperm.
  - exists []. simpl. rewrite app_nil_r. split; [reflexivity | constructor].
  - assert (Hp : Permutation (completion k) (seq 0 (List.length chunk))).
    { rewrite <- (Nat.add_0_r k). apply (Hperm 0). reflexivity. }
    assert (Hlen : List.length piece = List.length chunk).
    { rewrite <- (length_map Returns piece), <- Hc. apply length_map. }
    destruct (process_chunk_returns sv chunk Scenario.image_dir entity_mapping
                piece Hc Hp) as [E Hl].
    cbn [main_loop]. rewrite E. cbn [bind].
    rewrite map_snd_combine by exact Hl.
    destruct (IH (S k) (acc ++ picked piece (completion k))) as (outs & Eo & Ho).
    { intros i c Hi. rewrite Nat.add_succ_comm. apply (Hperm (S i)). exact Hi. }
    exists (picked piece (completion k) :: outs). split.
    + rewrite Eo. simpl. rewrite <- app_assoc. reflexivity.
    + constructor; [|exact Ho].
      apply picked_permutation. rewrite Hlen. exact Hp.
Qed.

(** A chunk on which [process_chunk] raises makes the loop raise. *)
Lemma main_loop_raises chunks :
  forall k acc i chunk e,
    nth_error chunks i = Some chunk ->
    process_chunk sv chunk Scenario.image_dir entity_mapping
                  (completion (k + i)) = Raises e ->
    exists e', main_loop sv chunks k completion acc = Raises e'.
Proof.
  induction chunks as [|c chunks IH]; intros k acc i chunk e Hi He.
  - destruct i; discriminate.
  - cbn [main_loop]. destruct i as [|i]; simpl in Hi.
    + injection Hi as ->. rewrite Nat.add_0_r in He. rewrite He.
      simpl. eauto.
    + destruct (process_chunk sv c _ _ _) as [out|e0]; simpl; [|eauto].
      apply (IH (S k) _ i chunk e Hi).
      rewrite Nat.add_succ_comm. exact He.
Qed.

End Loop.

Lemma concat_permutation (A : Type) (outs pieces : list (list A)) :
  Forall2 (@Permutation A) outs pieces ->
  Permutation (List.concat outs) (List.concat pieces).
Proof.
  induction 1; simpl; [constructor | apply Permutation_app; assumption].
Qed.

Lemma in_concat_chunk (A : Type) (chunks : list (list A)) x :
  In x (List.concat chunks) ->
  exists i chunk, nth_error chunks i = Some chunk /\ In x chunk.
Proof.
  induction chunks as [|c chunks IH]; simpl; [intros []|].
  intros H. apply in_app_or in H. destruct H as [H|H].
  - exists 0, c. auto.
  - destruct (IH H) as (i & chunk & Hi & Hx). exists (S i), chunk. auto.
Qed.

End MainFacts.

Import MainFacts.

(** X15: when every task returns, [main] writes one prediction per
    input row, whatever the orders of completion; the predictions are the
    tasks' values up to order, and a value never leaves its chunk: the
    output is, chunk by chunk, a rearrangement of that chunk's values. *)
Theorem X15_main_output (Image Region Confidence : Type)
    (sv : services Image Region Confidence)
    (rows : list row) (vals : list str) (completion : nat -> list nat) :
  map (fun r => process_image sv (image_link r) Scenario.image_dir
                              (entity_name r) entity_mapping) rows
  = map Returns vals ->
  (forall i chunk, nth_error (read_chunks chunk_size rows) i = Some chunk ->
     Permutation (completion i) (seq 0 (List.length chunk))) ->
  exists outs,
    main sv rows completion = Returns (List.concat outs)
    /\ Forall2 (@Permutation str) outs (read_chunks chunk_size vals)
    /\ List.length (List.concat outs) = List.length rows
    /\ Permutation (List.concat outs) vals.
Proof.
  intros Htasks Hperm.
  assert (Hlen : List.length vals = List.length rows).
  { rewrite <- (length_map Returns vals), <- Htasks. apply length_map. }
  pose proof (chunks_map _ _ chunk_size (List.length rows) rows vals Htasks)
    as Hchunks.
  destruct (main_loop_returns sv completion Hchunks 0 [] Hperm)
    as (outs & E & Ho).
  assert (Hp : Permutation (List.concat outs) vals).
  { rewrite (concat_permutation Ho).
    rewrite chunks_concat; [reflexivity | unfold chunk_size; lia | lia]. }
  exists outs. unfold main, read_chunks at 1. rewrite E.
  split; [reflexivity|]. split.
  - unfold read_chunks. rewrite Hlen. exact Ho.
  - split; [|exact Hp]. rewrite (Permutation_length Hp). exact Hlen.
Qed.

Lemma X15_main_output_witness :
  exists outs,
    main Scenario.shop [Scenario.row_a; Scenario.row_b] (fun _ => [1; 0])
    = Returns (List.concat outs)
    /\ Forall2 (@Permutation str) outs
               (read_chunks chunk_size [L "5 kg"; L "7 kg"])
    /\ List.length (List.concat outs) = 2
    /\ Permutation (List.concat outs) [L "5 kg"; L "7 kg"].
Proof.
  apply (@X15_main_output str unit unit Scenario.shop
           [Scenario.row_a; Scenario.row_b] [L "5 kg"; L "7 kg"]
           (fun _ => [1; 0])).
  - vm_compute. reflexivity.
  - intros [|[|i]] chunk H; vm_compute in H; try discriminate.
    injection H as <-. apply perm_swap.
Defined.

(** X16: one row whose task raises makes [main] raise, whatever the
    orders of completion: no output is produced, not even for the chunks
    already processed. *)
Theorem X16_main_raises (Image Region Confidence : Type)
    (sv : services Image Region Confidence)
    (rows : list row) (completion : nat -> list nat) (r : row) (e : str) :
  (forall i chunk, nth_error (read_chunks chunk_size rows) i = Some chunk ->
     Permutation (completion i) (seq 0 (List.length chunk))) ->
  In r rows ->
  process_image sv (image_link r) Scenario.image_dir (entity_name r)
                entity_mapping = Raises e ->
  exists e', main sv rows completion = Raises e'.
Proof.
  intros Hperm Hin Hr.
  assert (Hc : List.concat (read_chunks chunk_size rows) = rows)
    by (apply chunks_concat; [unfold chunk_size; lia | lia]).
  rewrite <- Hc in Hin. apply in_concat_chunk in Hin.
  destruct Hin as (i & chunk & Hi & Hin).
  assert (Hraise : exists e',
            process_chunk sv chunk Scenario.image_dir entity_mapping
                          (completion (0 + i)) = Raises e').
  { set (futures := map (fun r => process_image sv (image_link r)
                           Scenario.image_dir (entity_name r) entity_mapping)
                        chunk).
    apply In_nth_error in Hin. destruct Hin as [n Hn].
    destruct (collect_raises futures (completion i) []) as (e' & Hcol & _).
    { exists n, e. split.
      - apply (Permutation_in _ (Permutation_sym (Hperm i chunk Hi))), in_seq.
        assert (n < List.length chunk) by (apply nth_error_Some; congruence).
        lia.
      - unfold futures. rewrite nth_error_map, Hn. simpl. rewrite Hr.
        reflexivity. }
    exists e'. unfold process_chunk. fold futures. simpl. rewrite Hcol.
    reflexivity. }
  destruct Hraise as [e' He'].
  unfold main. eapply main_loop_raises; [exact Hi | exact He'].
Qed.

Lemma X16_main_raises_witness :
  exists e',
    main Scenario.shop [Scenario.row_a; Scenario.row_huge] (fun _ => [0; 1])
    = Raises e'.
Proof.
  apply (@X16_main_raises str unit unit Scenario.shop
           [Scenario.row_a; Scenario.row_huge] (fun _ => [0; 1])
           Scenario.row_huge (L "tesseract failed")).
  - intros [|[|i]] chunk H; vm_compute in H; try discriminate.
    injection H as <-. apply Permutation_refl.
  - right. left. reflexivity.
  - vm_compute. reflexivity.
Defined.

(** ** Blank text, unknown names *)

Module MoreFacts.

Import StrFacts ExtractFacts DetectFacts DictFacts.

Lemma lstrip_blank x :
  Forall (fun a => isspace a = true) x -> lstrip x = [].
Proof. induction 1 as [|a x Ha _ IH]; simpl; [|rewrite Ha]; auto. Qed.

Lemma strip_blank x :
  Forall (fun a => isspace a = true) x -> strip x = [].
Proof. intros H. unfold strip. rewrite (lstrip_blank H). reflexivity. Qed.

(** The characters of a piece are characters of the text. *)
Lemma split_chars sep s piece a :
  In piece (split sep s) -> In a piece -> In a s.
Proof.
  revert piece. induction s as [|b s IH]; intros piece; cbn [split].
  - intros [<-|[]] [].
  - destruct (Ascii.eqb b sep).
    + intros [<-|H] Ha; [destruct Ha | right; exact (IH _ H Ha)].
    + destruct (split sep s) as [|p rest] eqn:Es;
        [destruct (SplitFacts.split_nonempty _ _ Es)|].
      intros [<-|H] Ha.
      * destruct Ha as [->|Ha]; [left; reflexivity|].
        right. apply (IH p); [left; reflexivity | exact Ha].
      * right. apply (IH piece); [right; exact H | exact Ha].
Qed.

Lemma filter_none (A : Type) (f : A -> bool) l :
  (forall x, In x l -> f x = false) -> filter f l = [].
Proof.
  induction l as [|x l IH]; intros H; simpl; [reflexivity|].
  rewrite (H x) by (left; reflexivity).
  apply IH. intros y Hy. apply H. right. exact Hy.
Qed.

(** For a type without a pattern the walk over any spans is empty. *)
Lemma detect_no_pattern (Region Confidence : Type)
    (spans : list (span Region Confidence)) t :
  Dict.get parameter_patterns (lower t) = None ->
  detect_parameters spans [t] = [].
Proof.
  intros H. rewrite detect_one_type, last_match_none; [reflexivity|].
  intros sp _. rewrite extract_parameter_eq, H. reflexivity.
Qed.

End MoreFacts.

Import MoreFacts.

(** X17: when the text of the second engine is empty or all
    whitespace, line feeds included, the fused stream is the first
    engine's spans and nothing else. *)
Theorem X17_blank_text_adds_nothing (Region Confidence : Type)
    (easyocr_results : list (span Region Confidence))
    (tesseract_results : str) :
  Forall (fun a => isspace a = true) tesseract_results ->
  detect_text easyocr_results tesseract_results = easyocr_results.
Proof.
  intros H. unfold detect_text. rewrite filter_none.
  - apply app_nil_r.
  - intros piece Hp. rewrite strip_blank; [reflexivity|].
    rewrite Forall_forall in *. intros a Ha.
    apply H. exact (split_chars _ _ _ _ Hp Ha).
Qed.

Lemma X17_blank_text_adds_nothing_witness :
  detect_text [line "5 kg"] [" "%char; "010"%char; "009"%char; "010"%char]
  = [line "5 kg"].
Proof.
  apply (@X17_blank_text_adds_nothing unit unit [line "5 kg"]
           [" "%char; "010"%char; "009"%char; "010"%char]).
  repeat constructor.
Defined.

(** X18: a row whose entity name is neither a key of the mapping nor,
    in lower case, the name of a pattern never gets a value: whenever its
    task returns, it returns the sentinel. *)
Theorem X18_unknown_entity_no_result (Image Region Confidence : Type)
    (sv : services Image Region Confidence) (url dir name result : str) :
  Dict.get entity_mapping name = None ->
  Dict.get parameter_patterns (lower name) = None ->
  process_image sv url dir name entity_mapping = Returns result ->
  result = no_result.
Proof.
  intros Hmap Hpat. unfold process_image, resolve, Dict.get_default.
  rewrite Hmap.
  destruct (download_image sv url dir) as [path|]; [|congruence].
  destruct (truthy path); [|congruence].
  unfold predict, run_detect_text.
  destruct (imread sv path) as [[image|]|]; cbn [bind];
    [|congruence|discriminate].
  destruct (preprocess_image sv image) as [pre|]; cbn [bind]; [|discriminate].
  destruct (readtext sv pre) as [spans|]; cbn [bind]; [|discriminate].
  destruct (image_to_string sv pre) as [text|]; cbn [bind]; [|discriminate].
  rewrite run_detect_one. cbn [bind].
  rewrite (detect_no_pattern _ _ Hpat). simpl. congruence.
Qed.

Lemma X18_unknown_entity_no_result_witness :
  L "No result" = no_result.
Proof.
  apply (@X18_unknown_entity_no_result str unit unit Scenario.shop
           (L "http://shop/a.jpg") Scenario.image_dir (L "colour")
           (L "No result")).
  - reflexivity.
  - reflexivity.
  - vm_compute. reflexivity.
Defined.

(** X19: for the weight and the height, extraction gives back its own
    results: a result, read again as a text, gives the same result. *)
Theorem X19_result_extracts_to_itself (text t r : str) :
  lower t = L "weight" \/ lower t = L "height" ->
  extract_parameter text t = Some r ->
  extract_parameter r t = Some r.
Proof.
  intros Ht H.
  destruct (result_words _ _ H) as [[Hv _]|(v & u & -> & Hv & Hu)].
  { destruct Ht as [Ht|Ht]; rewrite Ht in Hv; discriminate Hv. }
  destruct Hu as [(words & Hw & Hu)|[Hvol _]];
    [|destruct Ht as [Ht|Ht]; rewrite Ht in Hvol; discriminate Hvol].
  apply (@number_unit_text (v ++ L " " ++ u) t v (L " ") u words Ht Hw Hv);
    [repeat constructor | exact Hu |].
  apply CaseFacts.lower_keeps.
  destruct (Exact.numeral_chars Hv) as [_ Hc].
  assert (Hl : Forall (fun a => isletter a = true) u).
  { destruct Ht as [Ht|Ht]; rewrite Ht in Hw; injection Hw as <-.
    - apply (@Exact.words_are_letters
               [L "g"; L "kg"; L "lb"; L "lbs"; L "oz"; L "mg"] eq_refl u Hu).
    - apply (@Exact.words_are_letters
               [L "cm"; L "m"; L "inch"; L "ft"; L "mm"] eq_refl u Hu). }
  apply Forall_app. split.
  - eapply Forall_impl; [|exact Hc]. cbv beta. intros a [D| ->].
    + apply CaseFacts.digit_not_upper, D.
    + reflexivity.
  - constructor; [reflexivity|].
    eapply Forall_impl; [|exact Hl]. cbv beta. intros a La.
    apply (Exact.letter_classes _ La).
Qed.

Lemma X19_result_extracts_to_itself_witness :
  extract_parameter (L "2.5 kg") (L "weight") = Some (L "2.5 kg").
Proof.
  apply (@X19_result_extracts_to_itself (L "package weight 2.5kg net")
           (L "weight") (L "2.5 kg")).
  - left. reflexivity.
  - vm_compute. reflexivity.
Defined.

(** ** The first number with a unit in a text *)

Module Leftmost.

Import ReFacts Shape StrFacts LangFacts UnitFacts DigitFacts CaseFacts
  Complete Exact.

(** The search returns a match at the first position that has one. *)
Lemma search_first (s : str) (r : regex) i0 j c' :
  (forall i j' c'', i < i0 -> ~ matches s r i [] j' c'') ->
  matches s r i0 [] j c' -> i0 <= List.length s ->
  exists j' c'', matches s r i0 [] j' c''
                 /\ search r s = Some (mkMatch s r (set 0 (i0, j') c'')).
Proof.
  intros Hnone Hm Hle.
  destruct (m_complete Hm (fun j c => Some (set 0 (i0, j) c)) eq_refl)
    as [res Hres].
  destruct (m_sound _ _ _ _ _ Hres) as (j' & c'' & Hm' & E).
  injection E as <-. exists j', c''. split; [exact Hm'|].
  unfold search.
  assert (G : forall fuel i, i <= i0 -> i0 <= i + fuel ->
            search_from s r i fuel = Some (set 0 (i0, j') c'')).
  { induction fuel as [|fuel IH]; intros i H1 H2.
    - assert (i = i0) by lia. subst i. cbn [search_from]. rewrite Hres.
      reflexivity.
    - cbn [search_from]. destruct (Nat.eq_dec i i0) as [->|Hne].
      + rewrite Hres. reflexivity.
      + destruct (m s r i [] _) as [res|] eqn:Em.
        * apply m_sound in Em. destruct Em as (j1 & c1 & Hm1 & _).
          destruct (Hnone i j1 c1); [lia | exact Hm1].
        * apply IH; lia. }
  rewrite (G (List.length s) 0) by lia. reflexivity.
Qed.

Section Occurrence.

Variable units : regex.
Variable words : list str.

Hypothesis units_plain : plain units = true.
Hypothesis units_words : forall x, lang units x <-> In x words.
Hypothesis words_letters :
  forall x, In x words -> x <> [] /\ Forall (fun a => isletter a = true) x.

Variables before v w u rest : str.

Hypothesis Hbefore : Forall (fun a => isdigit a = false) before.
Hypothesis Hv : numeral v.
Hypothesis Hw : Forall (fun a => isspace a = true) w.
Hypothesis Hu : In u words.
Hypothesis Hrest :
  match rest with [] => True | c :: _ => isword c = false end.

Let s : str := before ++ v ++ w ++ u ++ rest.
Let p : nat := List.length before.
Let a : nat := p + List.length v.
Let b : nat := a + List.length w.
Let e : nat := b + List.length u.

Lemma text_length : List.length s = e + List.length rest.
Proof. unfold s, e, b, a, p. rewrite !length_app. lia. Qed.

(** What stands where in the text. *)
Lemma text_char q x :
  nth_error s q = Some x ->
  (q < p /\ isdigit x = false)
  \/ (p <= q < a /\ (isdigit x = true \/ x = "."%char))
  \/ (a <= q < b /\ isspace x = true)
  \/ (b <= q < e /\ isletter x = true)
  \/ (q = e /\ isword x = false)
  \/ e < q.
Proof.
  unfold s, e, b, a, p. intros H.
  destruct (numeral_chars Hv) as [_ Hvc].
  destruct (words_letters _ Hu) as [_ Huc].
  rewrite Forall_forall in Hbefore, Hvc, Hw, Huc.
  destruct (Nat.lt_ge_cases q (List.length before)) as [H0|H0].
  { rewrite nth_error_app1 in H by assumption.
    left. split; [assumption | eapply Hbefore, nth_error_In; eassumption]. }
  rewrite nth_error_app2 in H by assumption. right.
  set (q1 := q - List.length before) in *.
  destruct (Nat.lt_ge_cases q1 (List.length v)) as [H1|H1].
  { rewrite nth_error_app1 in H by assumption.
    left. split; [lia | eapply Hvc, nth_error_In; eassumption]. }
  rewrite nth_error_app2 in H by assumption. right.
  set (q2 := q1 - List.length v) in *.
  destruct (Nat.lt_ge_cases q2 (List.length w)) as [H2|H2].
  { rewrite nth_error_app1 in H by assumption.
    left. split; [lia | eapply Hw, nth_error_In; eassumption]. }
  rewrite nth_error_app2 in H by assumption. right.
  set (q3 := q2 - List.length w) in *.
  destruct (Nat.lt_ge_cases q3 (List.length u)) as [H3|H3].
  { rewrite nth_error_app1 in H by assumption.
    left. split; [lia | eapply Huc, nth_error_In; eassumption]. }
  rewrite nth_error_app2 in H by assumption. right.
  destruct (q3 - List.length u) as [|d] eqn:E4.
  - left. split; [lia|]. destruct rest as [|c rest']; [discriminate|].
    simpl in H. injection H as <-. exact Hrest.
  - right. lia.
Qed.

Lemma text_letter q : b <= q < e -> char_at s q isletter.
Proof.
  intros Hq.
  destruct (nth_error s q) as [x|] eqn:E.
  - exists x. split; [exact E|].
    destruct (text_char _ E) as [[? _]|[[? _]|[[? _]|[[_ ?]|[[? _]|?]]]]];
      try lia; assumption.
  - apply nth_error_None in E. rewrite text_length in E. lia.
Qed.

Lemma unit_not_empty : 0 < List.length u.
Proof.
  destruct (words_letters _ Hu) as [Hne _].
  destruct u; [congruence | simpl; lia].
Qed.

(** The pattern matches where the numeral begins. *)
Lemma occurrence_match :
  matches s (number_unit units) p [] e [(2, (b, e)); (1, (p, a))].
Proof.
  unfold number_unit.
  apply M_cat with (j := a) (c1 := [(1, (p, a))]).
  { unfold number. apply (M_group 1).
    exact (@lang_matches
             (Cat (Plus (Class isdigit))
                  (Opt (Cat (Chr ".") (Plus (Class isdigit)))))
             eq_refl v before (w ++ u ++ rest) [] (numeral_lang Hv)). }
  apply M_cat with (j := b) (c1 := [(1, (p, a))]).
  { pose proof (@lang_matches (Star ws) eq_refl w (before ++ v) (u ++ rest)
                  [(1, (p, a))] (run_lang _ Hw)) as H.
    rewrite <- app_assoc, length_app in H. exact H. }
  apply M_cat with (j := e) (c1 := [(2, (b, e)); (1, (p, a))]).
  { apply (M_group 2).
    pose proof (@lang_matches units units_plain u (before ++ v ++ w) rest
                  [(1, (p, a))] (proj2 (units_words u) Hu)) as H.
    rewrite <- !app_assoc, !length_app, Nat.add_assoc in H. exact H. }
  apply M_boundary.
  pose proof unit_not_empty as He.
  unfold at_boundary, word_at.
  destruct e as [|e'] eqn:Ee; [unfold e, b in Ee; lia|].
  destruct (text_letter (q:=e')) as (x & -> & Hx);
    [unfold e, b in *; lia|].
  destruct (letter_classes _ Hx) as [-> _].
  destruct (nth_error s (S e')) as [y|] eqn:Ey; [|reflexivity].
  destruct (text_char _ Ey) as [[? _]|[[? _]|[[? _]|[[? _]|[[_ ->]|?]]]]];
    try (unfold e, b, a in *; lia); reflexivity.
Qed.

(** No match begins before the numeral. *)
Lemma nothing_before i j c' :
  i < p -> ~ matches s (number_unit units) i [] j c'.
Proof.
  unfold number_unit. intros Hi H.
  apply inv_cat in H. destruct H as (j1 & c1 & Hnum & _).
  apply number_digits in Hnum. destruct Hnum as (_ & _ & (x & Hx & Dx) & _).
  destruct (text_char _ Hx) as [[_ N]|[[? _]|[[? _]|[[? _]|[[? _]|?]]]]];
    try (unfold e, b, a in *; lia).
  congruence.
Qed.

(** A match that begins with the numeral captures the numeral and the
    unit. *)
Lemma occurrence_captures j c' :
  matches s (number_unit units) p [] j c' ->
  c' = [(2, (b, e)); (1, (p, a))].
Proof.
  unfold number_unit. intros H.
  pose proof unit_not_empty as Hune.
  apply inv_cat in H. destruct H as (j1 & c1 & Hnum & H).
  apply inv_cat in H. destruct H as (j2 & c2 & Hws & H).
  apply inv_cat in H. destruct H as (j3 & c3 & Hunit & Hb).
  assert (Hnumchars : forall q, p <= q < j1 ->
            exists x, nth_error s q = Some x
                      /\ (isdigit x = true \/ x = "."%char)).
  { intros q Hq.
    pose proof (matches_lang Hnum) as Hl. apply lang_number in Hl.
    destruct (numeral_chars Hl) as [_ Hc]. rewrite Forall_forall in Hc.
    assert (Hb1 : j1 <= List.length s)
      by (apply (matches_bound Hnum); lia).
    destruct (nth_error s q) as [x|] eqn:E;
      [|apply nth_error_None in E; lia].
    exists x. split; [reflexivity|]. apply Hc.
    apply nth_error_In with (n := q - p).
    rewrite nth_error_slice by lia.
    replace (p + (q - p)) with q by lia. exact E. }
  apply number_digits in Hnum. destruct Hnum as (-> & Hj1 & _ & _).
  pose proof (matches_le Hws) as Hle12.
  pose proof (star_class_run Hws) as Hrun.
  apply keeps in Hws; [subst c2 | reflexivity].
  pose proof (matches_le Hunit) as Hle23.
  assert (Hb3 : j2 < j3 -> j3 <= List.length s)
    by (intros Hlt; exact (matches_bound Hunit Hlt)).
  apply group_lang in Hunit; [|apply plain_no_group, units_plain].
  destruct Hunit as (-> & Hword). apply units_words in Hword.
  destruct (words_letters _ Hword) as [Hne Hletters].
  apply inv_boundary in Hb. destruct Hb as (-> & -> & Hbound).
  assert (Hlt23 : j2 < j3).
  { destruct (Nat.eq_dec j2 j3) as [<-|]; [|lia].
    rewrite slice_nil in Hne. congruence. }
  specialize (Hb3 Hlt23).
  assert (Hin : forall q, j2 <= q < j3 -> char_at s q isletter).
  { intros q Hq. rewrite Forall_forall in Hletters.
    destruct (nth_error s q) as [x|] eqn:E;
      [|apply nth_error_None in E; lia].
    exists x. split; [exact E|]. apply Hletters.
    apply nth_error_In with (n := q - j2).
    rewrite nth_error_slice by lia.
    replace (j2 + (q - j2)) with q by lia. exact E. }
  assert (Hj1a : j1 = a).
  { assert (j1 <= a).
    { destruct (Nat.le_gt_cases j1 a) as [|Hgt]; [assumption|]. exfalso.
      destruct (Hnumchars a) as (x & Hx & Dx); [unfold a in *; lia|].
      destruct (text_char _ Hx)
        as [[? _]|[[? _]|[[_ S]|[[_ Lx]|[[? _]|?]]]]];
        try (unfold e, b, a in *; lia).
      - destruct (space_classes _ S) as (N1 & _ & N2).
        destruct Dx; congruence.
      - destruct (letter_classes _ Lx) as (_ & N1 & _ & _ & N2).
        destruct Dx; congruence. }
    destruct (Nat.eq_dec j1 a) as [|Hne1]; [assumption|]. exfalso.
    assert (Hy : exists y, nth_error s j1 = Some y
                           /\ (isdigit y = true \/ y = "."%char)).
    { destruct (nth_error s j1) as [y|] eqn:E;
        [|apply nth_error_None in E; rewrite text_length in E;
          unfold e, b, a in *; lia].
      exists y. split; [reflexivity|].
      destruct (text_char _ E) as [[? _]|[[_ D]|[[? _]|[[? _]|[[? _]|?]]]]];
        try (unfold e, b, a in *; lia). exact D. }
    destruct Hy as (y & Hy & Dy).
    destruct (Nat.eq_dec j1 j2) as [<-|Hne12].
    - destruct (Hin j1) as (y' & Hy' & Ly'); [lia|].
      assert (y' = y) by congruence. subst y'.
      destruct (letter_classes _ Ly') as (_ & N1 & _ & _ & N2).
      destruct Dy; congruence.
    - destruct (Hrun j1) as (y' & Hy' & Sy'); [lia|].
      assert (y' = y) by congruence. subst y'. unfold ws in Sy'.
      destruct (space_classes _ Sy') as (N1 & _ & N2).
      destruct Dy; congruence. }
  subst j1.
  assert (Hj2 : j2 = b).
  { assert (j2 <= b).
    { destruct (Nat.le_gt_cases j2 b) as [|Hgt]; [assumption|]. exfalso.
      destruct (Hrun b) as (x & Hx & Sx); [lia|]. unfold ws in Sx.
      destruct (text_letter (q:=b)) as (x' & Hx' & Lx');
        [unfold e in *; lia|].
      assert (x' = x) by congruence. subst x'.
      destruct (letter_classes _ Lx') as (_ & _ & N & _). congruence. }
    destruct (Nat.eq_dec j2 b) as [|Hne2]; [assumption|]. exfalso.
    destruct (Hin j2) as (x & Hx & Lx); [lia|].
    destruct (text_char _ Hx) as [[? _]|[[? _]|[[_ S]|[[? _]|[[? _]|?]]]]];
      try (unfold e, b, a in *; lia).
    destruct (space_classes _ S) as (_ & N & _). congruence. }
  subst j2.
  assert (Hj3 : j3 = e).
  { assert (j3 <= e).
    { destruct (Nat.le_gt_cases j3 e) as [|Hgt]; [assumption|]. exfalso.
      destruct (Hin e) as (x & Hx & Lx); [unfold e in *; lia|].
      destruct (text_char _ Hx) as [[? _]|[[? _]|[[? _]|[[? _]|[[_ W]|?]]]]];
        try (unfold e, b, a in *; lia).
      destruct (letter_classes _ Lx) as (W' & _). congruence. }
    destruct (Nat.eq_dec j3 e) as [|Hne3]; [assumption|]. exfalso.
    destruct (Hin (pred j3)) as (x & Hx & Lx); [lia|].
    destruct (text_letter (q:=j3)) as (y & Hy & Ly); [lia|].
    unfold at_boundary, word_at in Hbound.
    destruct j3 as [|j3']; [lia|]. simpl in Hx.
    rewrite Hx, Hy in Hbound.
    destruct (letter_classes _ Lx) as [Wx _].
    destruct (letter_classes _ Ly) as [Wy _].
    rewrite Wx, Wy in Hbound. discriminate. }
  subst j3. reflexivity.
Qed.

End Occurrence.

Lemma slice_middle (x y z : str) :
  slice (x ++ y ++ z) (List.length x) (List.length x + List.length y) = y.
Proof.
  unfold slice. rewrite skipn_app, skipn_all, Nat.sub_diag. cbn [skipn app].
  replace (List.length x + List.length y - List.length x)
    with (List.length y) by lia.
  rewrite firstn_app, firstn_all, Nat.sub_diag. cbn [firstn].
  apply app_nil_r.
Qed.

(** On a lowered text in which a numeral, blanks and a unit word follow
    a digit-free beginning and stand before the end or a non-word
    character, a pattern of the number-unit shape gives the numeral, a
    blank, the unit. *)
Lemma extract_first_occurrence units words text before v w u rest :
  plain units = true ->
  (forall x, lang units x <-> In x words) ->
  (forall x, In x words ->
             x <> [] /\ Forall (fun a => isletter a = true) x) ->
  Forall (fun a => isdigit a = false) before ->
  numeral v -> Forall (fun a => isspace a = true) w -> In u words ->
  match rest with [] => True | c :: _ => isword c = false end ->
  lower text = before ++ v ++ w ++ u ++ rest ->
  extract_with (number_unit units) text = Some (v ++ L " " ++ u).
Proof.
  intros Hplain Hwords Hletters Hbefore Hv Hw Hu Hrest Htext.
  pose proof (@occurrence_match units words Hplain Hwords Hletters
                before v w u rest Hbefore Hv Hw Hu Hrest) as Hm.
  apply search_first in Hm.
  - destruct Hm as (j' & c'' & Hm & Hs).
    apply (@occurrence_captures units words Hplain Hwords Hletters
             before v w u rest Hbefore Hv Hw Hu Hrest) in Hm.
    subst c''. unfold extract_with. rewrite Htext, Hs.
    assert (Hn : ngroups (number_unit units) = 2).
    { simpl. rewrite (plain_no_group _ Hplain). reflexivity. }
    unfold groups. cbn [pattern]. rewrite Hn.
    change (seq 1 2) with [1; 2]. cbn [map].
    unfold group. cbn [spans subject get set Nat.eqb].
    assert (E1 : slice (before ++ v ++ w ++ u ++ rest) (List.length before)
                       (List.length before + List.length v) = v)
      by apply slice_middle.
    assert (E2 : slice (before ++ v ++ w ++ u ++ rest)
                       (List.length before + List.length v + List.length w)
                       (List.length before + List.length v + List.length w
                        + List.length u) = u).
    { pose proof (slice_middle (before ++ v ++ w) u rest) as E.
      rewrite <- !app_assoc, !length_app, !Nat.add_assoc in E. exact E. }
    rewrite E1, E2. cbn [fmt].
    destruct (Hletters _ Hu) as [Hne Hl].
    rewrite (strip_join (numeral_trimmed Hv) (letters_trimmed Hne Hl)).
    reflexivity.
  - intros i j' c'' Hi.
    exact (@nothing_before units words Hletters before v w u rest
             Hbefore Hv Hw Hu Hrest i j' c'' Hi).
  - rewrite !length_app. lia.
Qed.

End Leftmost.

Import Leftmost.

(** X9: the first number with a unit wins.  In a text whose beginning
    has no digit, a numeral followed by any blanks and a unit word of the
    type, itself followed by the end of the text or by a character that is
    not a word character, gives for the weight and for the height exactly
    that numeral, one blank and that unit word, whatever follows. *)
Theorem X9_first_occurrence (text t before v w u rest : str)
    (words : list str) :
  lower t = L "weight" \/ lower t = L "height" ->
  Dict.get unit_words (lower t) = Some words ->
  Forall (fun a => isdigit a = false) before ->
  numeral v -> Forall (fun a => isspace a = true) w -> In u words ->
  match rest with [] => True | c :: _ => isword c = false end ->
  lower text = before ++ v ++ w ++ u ++ rest ->
  extract_parameter text t = Some (v ++ L " " ++ u).
Proof.
  intros Ht Hwords Hb Hv Hw Hu Hrest Htext.
  rewrite ExtractFacts.extract_parameter_eq.
  destruct Ht as [Ht|Ht]; rewrite Ht in *; injection Hwords as <-.
  - change (Dict.get parameter_patterns (L "weight"))
      with (Some (number_unit weight_alternatives)).
    exact (@extract_first_occurrence weight_alternatives _ text before v w u
             rest eq_refl Exact.weight_words
             (@Exact.words_are_letters
                [L "g"; L "kg"; L "lb"; L "lbs"; L "oz"; L "mg"] eq_refl)
             Hb Hv Hw Hu Hrest Htext).
  - change (Dict.get parameter_patterns (L "height"))
      with (Some (number_unit length_alternatives)).
    exact (@extract_first_occurrence length_alternatives _ text before v w u
             rest eq_refl Exact.length_words
             (@Exact.words_are_letters
                [L "cm"; L "m"; L "inch"; L "ft"; L "mm"] eq_refl)
             Hb Hv Hw Hu Hrest Htext).
Qed.

Lemma X9_first_occurrence_witness :
  extract_parameter (L "Net Wt 5 KG, gross 7 kg") (L "weight")
  = Some (L "5" ++ L " " ++ L "kg").
Proof.
  apply (@X9_first_occurrence (L "Net Wt 5 KG, gross 7 kg") (L "weight")
           (L "net wt ") (L "5") (L " ") (L "kg") (L ", gross 7 kg")
           [L "g"; L "kg"; L "lb"; L "lbs"; L "oz"; L "mg"]).
  - left. reflexivity.
  - reflexivity.
  - repeat constructor.
  - exists (L "5"). split; [split; [discriminate | repeat constructor]|].
    left. reflexivity.
  - repeat constructor.
  - simpl. right. left. reflexivity.
  - reflexivity.
  - reflexivity.
Defined.

(** ** Requested types as a set, results in lower case *)

Module SetFacts.

Import StrFacts UnitFacts Exact CaseFacts.

Lemma existsb_same (params params' : list str) t :
  (forall x, In x params <-> In x params') ->
  existsb (PyStr.eqb t) params = existsb (PyStr.eqb t) params'.
Proof.
  intros H.
  destruct (existsb (PyStr.eqb t) params) eqn:E,
           (existsb (PyStr.eqb t) params') eqn:E'; try reflexivity.
  - apply existsb_exists in E. destruct E as (x & Hx & Ex).
    assert (existsb (PyStr.eqb t) params' = true); [|congruence].
    apply existsb_exists. exists x. split; [apply H, Hx | exact Ex].
  - apply existsb_exists in E'. destruct E' as (x & Hx & Ex).
    assert (existsb (PyStr.eqb t) params = true); [|congruence].
    apply existsb_exists. exists x. split; [apply H, Hx | exact Ex].
Qed.

(** The characters of a unit are not capitals. *)
Lemma unit_lower k u : is_unit k u -> Forall (fun a => isupper a = false) u.
Proof.
  intros [(words & Hw & Hu)|(_ & a & Ha & ->)].
  - apply get_in in Hw. simpl in Hw.
    assert (Hl : Forall (fun a => isletter a = true) u).
    { repeat (destruct Hw as [Hw|Hw];
        [ injection Hw as _ <-;
          apply (fun H => proj2 (@words_are_letters _ H u Hu)); reflexivity |]).
      contradiction. }
    eapply Forall_impl; [|exact Hl]. cbv beta. intros a La.
    apply (letter_classes _ La).
  - repeat constructor. apply space_not_upper, Ha.
Qed.

Lemma numeral_lower v : numeral v -> Forall (fun a => isupper a = false) v.
Proof.
  intros H. destruct (numeral_chars H) as [_ Hc].
  eapply Forall_impl; [|exact Hc]. cbv beta. intros a [D| ->].
  - apply digit_not_upper, D.
  - reflexivity.
Qed.

End SetFacts.

Import SetFacts.

(** X20: the values returned depend on the requested types as a set
    only: two lists that hold the same types, in any order and with any
    repetitions, give the same value under every type. *)
Theorem X20_requested_types_as_set (Region Confidence : Type)
    (spans : list (span Region Confidence)) (params params' : list str) :
  (forall t, In t params <-> In t params') ->
  forall t, Dict.get (detect_parameters spans params) t
            = Dict.get (detect_parameters spans params') t.
Proof.
  intros H t. rewrite !DetectFacts.detect_parameters_get.
  rewrite (existsb_same _ _ t H). reflexivity.
Qed.

Lemma X20_requested_types_as_set_witness :
  Dict.get (detect_parameters [line "5 kg"; line "3 cm"]
                              [L "weight"; L "height"]) (L "weight")
  = Dict.get (detect_parameters [line "5 kg"; line "3 cm"]
                                [L "height"; L "weight"; L "height"])
             (L "weight").
Proof.
  apply (@X20_requested_types_as_set unit unit [line "5 kg"; line "3 cm"]
           [L "weight"; L "height"] [L "height"; L "weight"; L "height"]).
  intros t. simpl. tauto.
Defined.

(** X21: a result holds no capital letter, whatever the letter case of
    the text: the unit comes out in lower case. *)
Theorem X21_result_in_lower_case (text t r : str) :
  extract_parameter text t = Some r ->
  Forall (fun a => isupper a = false) r.
Proof.
  intros H.
  destruct (result_words _ _ H) as [[_ Hv]|(v & u & -> & Hv & Hu)].
  - apply numeral_lower, Hv.
  - apply Forall_app. split; [apply numeral_lower, Hv|].
    constructor; [reflexivity | exact (unit_lower Hu)].
Qed.

Lemma X21_result_in_lower_case_witness :
  Forall (fun a => isupper a = false) (L "12.5 oz").
Proof.
  apply (@X21_result_in_lower_case (L "Net Wt 12.5 OZ") (L "weight")
           (L "12.5 oz")).
  vm_compute. reflexivity.
Defined.

(** ** Failed acquisition, failed decode *)

(** X22: a failed acquisition (an exception of the HTTP client or of
    the file write, or a status other than 200) and a failed decode (the
    image library returns no image) give the failure sentinel for the row
    and raise nothing, whatever the entity name cell holds. *)
Theorem X22_failed_acquisition_gives_sentinel
    (Image Region Confidence : Type)
    (sv : services Image Region Confidence)
    (url dir : str) (entity_name : cell) (mapping : Dict.dict str) :
  let path := path_join dir (basename url) in
  (exists e, http_get sv url = Raises e) \/
  (exists status, http_get sv url = Returns status /\ status <> 200%N) \/
  (exists e, write_file sv path = Raises e) \/
  imread sv path = Returns None ->
  process_image sv url dir entity_name mapping = Returns no_result.
Proof.
  intros path. unfold process_image, download_image. fold path.
  intros [[e H]|[(status & H & Hne)|[[e H]|H]]].
  - rewrite H. reflexivity.
  - rewrite H. destruct (N.eqb_spec status 200) as [->|_]; [|reflexivity].
    destruct (Hne eq_refl).
  - rewrite H.
    destruct (http_get sv url) as [status|]; [|reflexivity].
    destruct (status =? 200)%N; reflexivity.
  - destruct (http_get sv url) as [status|]; [|reflexivity].
    destruct (status =? 200)%N; [|reflexivity].
    destruct (write_file sv path); [|reflexivity].
    destruct (truthy path); [|reflexivity].
    unfold predict. rewrite H. reflexivity.
Qed.

Lemma X22_failed_acquisition_gives_sentinel_witness :
  Scenario.task Scenario.row_gone = Returns no_result
  /\ Scenario.task Scenario.row_torn = Returns no_result
  /\ process_image Scenario.shop (L "http://shop/torn.jpg")
                   Scenario.image_dir NaN entity_mapping
     = Returns no_result.
Proof.
  split; [|split].
  - apply (@X22_failed_acquisition_gives_sentinel str unit unit Scenario.shop
             (L "http://shop/gone.jpg") Scenario.image_dir
             (Text (L "item_weight")) entity_mapping).
    right. left. exists 404%N. split; [reflexivity | discriminate].
  - apply (@X22_failed_acquisition_gives_sentinel str unit unit Scenario.shop
             (L "http://shop/torn.jpg") Scenario.image_dir
             (Text (L "item_weight")) entity_mapping).
    right. right. right. reflexivity.
  - apply (@X22_failed_acquisition_gives_sentinel str unit unit Scenario.shop
             (L "http://shop/torn.jpg") Scenario.image_dir NaN entity_mapping).
    right. right. right. reflexivity.
Defined.
